(** * Gaming analytics dashboard: a shallow embedding of [dashboard.py]

    The program is a Streamlit script: a cached loader [load_data] that
    reads three parquet files, and a [main] function that renders metrics
    and one chart from the loaded tables.  The embedding has four layers:

    - [Numeric]: the numbers held by numeric columns and the two Python
      format specifications the script uses ([:,] and [:.1f]);
    - [Pandas]: series, data frames and the pandas operations the script
      calls ([len], [mean], [sum], [nunique], [cut], [value_counts])
      together with column access and assignment;
    - [Streamlit]: the page as a log of emitted elements, the script monad
      (state, exceptions) and the [st.cache_data] decorator;
    - [Dashboard]: [load_data] and [main], statement by statement.

    Modelling conventions.  Numeric cells are rationals extended with
    the IEEE special values.  Quotients and products are rounded to
    binary64 as numpy rounds them ([round64]).  The sum of a column is
    exact: on the columns whose sum needs no rounding and no wrap-around
    ([exactly_summable]) this is what pandas computes, whatever the order
    of its additions, and the statements about the digits of an average
    or of a score are made for such columns.  Signed zeros are outside
    the model, and so is a text column without a single string, which
    pandas reduces to 0 or NaN instead of raising.
    Layout containers ([st.columns], [st.sidebar]) only position elements
    and are not represented: the page is the sequence of elements in
    emission order.  The module-level statements before [load_data]
    (page configuration, style sheet, directory listing) are not part
    of the two functions and are left out. *)

From Stdlib Require Import QArith Qabs Qpower Lqa Floats Ascii String List.
From stdpp Require Import gmap strings list fin_maps pretty sorting.

Local Open Scope string_scope.
Local Open Scope list_scope.

(* ===================================================================== *)
(** ** Numbers and Python formatting *)
(* ===================================================================== *)

Module Numeric.

(** A numeric cell or a numeric scalar: a finite value, an infinity, or
    the missing value NaN. *)
Inductive num : Type :=
| Fin (q : Q)
| PInf
| NInf
| NaN.

Definition of_Z (z : Z) : num := Fin (inject_Z z).
Definition of_nat (n : nat) : num := of_Z (Z.of_nat n).

Definition isnan (x : num) : bool :=
  match x with NaN => true | _ => false end.

Definition isfinite (x : num) : bool :=
  match x with Fin _ => true | _ => false end.

(** Sign of a rational as a comparison with zero. *)
Definition Qsign (q : Q) : comparison := (Qnum q ?= 0)%Z.

(** IEEE comparisons: every comparison with NaN is false. *)
Definition nlt (x y : num) : bool :=
  match x, y with
  | NaN, _ | _, NaN => false
  | Fin a, Fin b => negb (Qle_bool b a)
  | NInf, NInf => false
  | NInf, _ => true
  | _, PInf => match x with PInf => false | _ => true end
  | _, _ => false
  end.

Definition nle (x y : num) : bool :=
  match x, y with
  | NaN, _ | _, NaN => false
  | Fin a, Fin b => Qle_bool a b
  | NInf, _ => true
  | _, PInf => true
  | _, _ => false
  end.

Definition neqb (x y : num) : bool :=
  match x, y with
  | Fin a, Fin b => Qeq_bool a b
  | PInf, PInf | NInf, NInf => true
  | _, _ => false
  end.

(** Nearest integer, ties to the even neighbour. *)
Definition round_half_even (q : Q) : Z :=
  let n := Qnum q in
  let d := Z.pos (Qden q) in
  let f := (n / d)%Z in
  let r := (n mod d)%Z in
  if (2 * r <? d)%Z then f
  else if (d <? 2 * r)%Z then (f + 1)%Z
  else if Z.even f then f else (f + 1)%Z.

(** *** Rounding to binary64

    Every float64 operation of numpy returns the binary64 number nearest
    to the exact result, ties going to the even significand (IEEE 754,
    53 bits of precision, exponents of the unit in the last place from
    -1074 to 971). *)

(** [floor (log2 q)] of a positive rational. *)
Definition Qlog2 (q : Q) : Z :=
  let k := (Z.log2 (Qnum q) - Z.log2 (Z.pos (Qden q)))%Z in
  if Qle_bool (2 ^ k) q then k else (k - 1)%Z.

(** The exponent of the unit in the last place of the binary64 numbers
    around [q]: 52 below the exponent of [q], but not below the exponent
    of the subnormal numbers. *)
Definition ulp_exp (q : Q) : Z := Z.max (-1074) (Qlog2 (Qabs q) - 52).

(** The binary64 number nearest to [q]; an infinity when that number
    would be [2^1024] or beyond. *)
Definition round64 (q : Q) : num :=
  let q := Qred q in
  match (Qnum q ?= 0)%Z with
  | Eq => Fin 0
  | s =>
      let e := ulp_exp q in
      let r := Qred (inject_Z (round_half_even (Qabs q / 2 ^ e)) * 2 ^ e) in
      if Qle_bool (2 ^ 1024) r then
        match s with Lt => NInf | _ => PInf end
      else Fin (match s with Lt => Qred (- r) | _ => r end)
  end.

(** Addition: exact on finite values, IEEE on the special ones.  The
    sums of the script are sums of a column; see [nansum]. *)
Definition nadd (x y : num) : num :=
  match x, y with
  | NaN, _ | _, NaN => NaN
  | Fin a, Fin b => Fin (Qred (a + b))
  | PInf, NInf | NInf, PInf => NaN
  | PInf, _ | _, PInf => PInf
  | NInf, _ | _, NInf => NInf
  end.

Definition nneg (x : num) : num :=
  match x with
  | Fin a => Fin (Qred (- a))
  | PInf => NInf
  | NInf => PInf
  | NaN => NaN
  end.

(** An infinity carrying the sign of [q]; NaN when [q] is zero. *)
Definition inf_of_sign (q : Q) : num :=
  match Qsign q with
  | Gt => PInf
  | Lt => NInf
  | Eq => NaN
  end.

(** Multiplication of float64 scalars. *)
Definition nmul (x y : num) : num :=
  match x, y with
  | NaN, _ | _, NaN => NaN
  | Fin a, Fin b => round64 (a * b)
  | PInf, Fin b | Fin b, PInf => inf_of_sign b
  | NInf, Fin b | Fin b, NInf => nneg (inf_of_sign b)
  | PInf, PInf | NInf, NInf => PInf
  | PInf, NInf | NInf, PInf => NInf
  end.

(** True division of numpy scalars, in float64.  A zero divisor does not
    raise (numpy only warns): the quotient is NaN for a zero dividend and
    an infinity with the dividend's sign otherwise. *)
Definition ndiv (x y : num) : num :=
  match x, y with
  | NaN, _ | _, NaN => NaN
  | Fin a, Fin b =>
      match Qsign b with
      | Eq => inf_of_sign a
      | _ => round64 (a / b)
      end
  | Fin _, (PInf | NInf) => Fin 0
  | PInf, Fin b => match Qsign b with Lt => NInf | _ => PInf end
  | NInf, Fin b => match Qsign b with Lt => PInf | _ => NInf end
  | (PInf | NInf), (PInf | NInf) => NaN
  end.

(** *** [format(n, ",")] on a non-negative integer *)

Definition comma : ascii := "," % char.
Definition dot : ascii := "." % char.

(** Groups of three digits, least significant digit first. *)
Fixpoint group3 (ds : list ascii) : list ascii :=
  match ds with
  | a :: b :: c :: ((_ :: _) as rest) => a :: b :: c :: comma :: group3 rest
  | _ => ds
  end.

Definition format_comma (n : nat) : string :=
  string_of_list_ascii
    (rev (group3 (rev (list_ascii_of_string (pretty n))))).

(** *** [format(x, ".1f")] *)

(** Tenths of [|q|], rounded. *)
Definition tenths (q : Q) : Z := round_half_even (Qabs q * 10).

Definition format_1f (x : num) : string :=
  match x with
  | NaN => "nan"
  | PInf => "inf"
  | NInf => "-inf"
  | Fin q =>
      let t := tenths q in
      (match Qsign q with Lt => "-" | _ => EmptyString end)
        +:+ pretty (t / 10)%Z +:+ "." +:+ pretty (t mod 10)%Z
  end.

(** A decimal digit. *)
Definition is_digit (c : ascii) : bool :=
  (48 <=? nat_of_ascii c)%nat && (nat_of_ascii c <=? 57)%nat.

End Numeric.

Export Numeric.

(* ===================================================================== *)
(** ** Python exceptions *)
(* ===================================================================== *)

Module Python.

(** An exception in flight.  [Exception] stands for every class derived
    from Python's [Exception], with its class name and [str(e)];
    [RerunException] is Streamlit's control-flow exception, derived from
    [BaseException] only, so that [except Exception] does not catch it. *)
Inductive exn : Type :=
| Exception (cls msg : string)
| RerunException.

Inductive outcome (A : Type) : Type :=
| Returns (a : A)
| Raises (e : exn).
Arguments Returns {A} a.
Arguments Raises {A} e.

Definition TypeError (msg : string) : exn := Exception "TypeError" msg.
Definition KeyError (msg : string) : exn := Exception "KeyError" msg.

End Python.

Export Python.

(* ===================================================================== *)
(** ** Series and data frames *)
(* ===================================================================== *)

Module Pandas.

(** An index label of a [value_counts] result. *)
Inductive scalar : Type :=
| SNum (x : num)
| SStr (s : string).

(** A column.  Numeric columns hold [num] cells (NaN is the missing
    value); text columns and categorical columns hold optional strings
    ([None] is the missing value); a categorical column also carries its
    ordered list of categories. *)
Inductive Series : Type :=
| Numeric (xs : list num)
| Text (xs : list (option string))
| Categorical (categories : list string) (xs : list (option string)).

Definition series_len (s : Series) : nat :=
  match s with
  | Numeric xs => length xs
  | Text xs => length xs
  | Categorical _ xs => length xs
  end.

(** A table: the length of its row index and its columns by name. *)
Record DataFrame : Type := mkFrame {
  index_len : nat;
  columns : gmap string Series
}.

(** [len(df)] *)
Definition len (df : DataFrame) : nat := index_len df.

(** ['c' in df.columns] *)
Definition has_column (df : DataFrame) (c : string) : bool :=
  match columns df !! c with Some _ => true | None => false end.

(** [df['c']] *)
Definition getitem (df : DataFrame) (c : string) : outcome Series :=
  match columns df !! c with
  | Some s => Returns s
  | None => Raises (KeyError c)
  end.

(** [df['c'] = s], for a series [s] on the index of [df]. *)
Definition setitem (df : DataFrame) (c : string) (s : Series) : DataFrame :=
  {| index_len := index_len df; columns := <[c := s]> (columns df) |}.

(** Every column has one cell per row. *)
Definition well_formed (df : DataFrame) : Prop :=
  ∀ c s, columns df !! c = Some s → series_len s = index_len df.

(** *** Reductions *)

Definition dropna (xs : list num) : list num :=
  filter (λ x, isnan x = false) xs.

Definition notnull (xs : list (option string)) : list string :=
  omap id xs.

(** [s.sum()] of a numeric column with the default [skipna=True].  The
    sum is exact.  This is the result of pandas on a column whose int64
    or float64 sum involves no rounding and no wrap-around
    ([exactly_summable]); on other columns the result of pandas depends
    on the order of its additions. *)
Definition nansum (xs : list num) : num :=
  foldl nadd (Fin 0) (dropna xs).

(** [s.sum()], as the script uses it: as an operand of [/].  On a text
    column pandas itself concatenates and it is the division that
    raises the [TypeError]; the model raises it here, in the same
    statement and before anything is emitted.  A text column without a
    string, which pandas sums to 0, is outside the model
    ([text_columns_filled]). *)
Definition sum (s : Series) : outcome num :=
  match s with
  | Numeric xs => Returns (nansum xs)
  | _ => Raises (TypeError "unsupported operand type")
  end.

(** [s.mean()] with the default [skipna=True]: the sum of the non-missing
    cells over their count, rounded to binary64; NaN when there is
    none. *)
Definition nanmean (xs : list num) : num :=
  match length (dropna xs) with
  | O => NaN
  | S _ as count => ndiv (nansum xs) (of_nat count)
  end.

(** [s.mean()].  On a column that is not numeric pandas raises a
    [TypeError], whose message depends on the column; a text column
    without a string, which pandas averages to NaN, is outside the model
    ([text_columns_filled]). *)
Definition mean (s : Series) : outcome num :=
  match s with
  | Numeric xs => Returns (nanmean xs)
  | _ => Raises (TypeError "does not support reduction 'mean'")
  end.

(** The distinct elements of a list in order of first appearance. *)
Fixpoint uniques {A : Type} (eqb : A → A → bool) (l : list A) : list A :=
  match l with
  | [] => []
  | x :: l' => x :: filter (λ y, eqb x y = false) (uniques eqb l')
  end.

Definition occurrences {A : Type} (eqb : A → A → bool) (x : A) (l : list A)
  : nat :=
  length (filter (λ y, eqb x y = true) l).

(** [s.nunique()] with the default [dropna=True]. *)
Definition nunique (s : Series) : nat :=
  match s with
  | Numeric xs => length (uniques neqb (dropna xs))
  | Text xs => length (uniques String.eqb (notnull xs))
  | Categorical _ xs => length (uniques String.eqb (notnull xs))
  end.

(** *** [pd.cut] *)

(** [bins.searchsorted(x, side='left')] on increasing [bins]: the number
    of edges strictly below [x]. *)
Fixpoint searchsorted_left (bins : list num) (x : num) : nat :=
  match bins with
  | [] => 0
  | b :: bins' => if nlt b x then S (searchsorted_left bins' x) else 0
  end.

(** One cell of [pd.cut(x, bins, labels)] with the defaults [right=True]
    and [include_lowest=False]: position [i] means
    [bins[i-1] < x <= bins[i]]; positions [0] and [len(bins)], and missing
    cells, fall in no bin. *)
Definition cut_cell (bins : list num) (labels : list string) (x : num)
  : option string :=
  if isnan x then None
  else
    let i := searchsorted_left bins x in
    if (i =? 0)%nat || (i =? length bins)%nat then None
    else labels !! (i - 1)%nat.

Definition cut (s : Series) (bins : list num) (labels : list string)
  : outcome Series :=
  match s with
  | Numeric xs => Returns (Categorical labels (cut_cell bins labels <$> xs))
  | _ => Raises (TypeError "Input array must be 1 dimensional numeric")
  end.

(** *** [value_counts] *)

Definition by_count_desc : relation (scalar * nat) :=
  λ a b, (b.2 ≤ a.2)%nat.

#[global] Instance by_count_desc_dec a b : Decision (by_count_desc a b).
Proof. unfold by_count_desc. apply _. Defined.

(** [s.value_counts()]: one entry per category (per distinct non-missing
    value for the other dtypes), most frequent first.  The relative order
    of entries with equal counts is whatever the sort leaves and is not
    relied upon. *)
Definition value_counts (s : Series) : list (scalar * nat) :=
  merge_sort by_count_desc
    match s with
    | Numeric xs =>
        (λ v, (SNum v, occurrences neqb v (dropna xs)))
          <$> uniques neqb (dropna xs)
    | Text xs =>
        (λ v, (SStr v, occurrences String.eqb v (notnull xs)))
          <$> uniques String.eqb (notnull xs)
    | Categorical cats xs =>
        (λ c, (SStr c, occurrences String.eqb c (notnull xs))) <$> cats
    end.

(** Count shown for a label, as a dictionary lookup on the result. *)
Definition is_label (label : string) (k : scalar) : bool :=
  match k with
  | SStr s => String.eqb s label
  | SNum _ => false
  end.

Fixpoint count_of (label : string) (vc : list (scalar * nat)) : option nat :=
  match vc with
  | [] => None
  | (k, n) :: vc' => if is_label label k then Some n else count_of label vc'
  end.

End Pandas.

Export Pandas.

(* ===================================================================== *)
(** ** Streamlit: page, script monad, data cache *)
(* ===================================================================== *)

Module Streamlit.

(** A Plotly pie figure: [px.pie(values, names, title)] followed by
    [update_traces(textposition, textinfo)]. *)
Record Figure : Type := mkFigure {
  fig_values : list nat;
  fig_names : list scalar;
  fig_title : string;
  fig_textposition : string;
  fig_textinfo : string
}.

Definition px_pie (values : list nat) (names : list scalar) (title : string)
  : Figure :=
  {| fig_values := values; fig_names := names; fig_title := title;
     fig_textposition := "auto"; fig_textinfo := "percent" |}.

Definition update_traces (fig : Figure) (textposition textinfo : string)
  : Figure :=
  {| fig_values := fig_values fig; fig_names := fig_names fig;
     fig_title := fig_title fig;
     fig_textposition := textposition; fig_textinfo := textinfo |}.

(** What a script run puts on the page.  [ExceptionBox] is the traceback
    Streamlit shows for an exception that escapes the script. *)
Inductive Element : Type :=
| Markdown (body : string)
| Success (body : string)
| Checkbox (label : string)
| Button (label : string)
| Metric (label value : string)
| PlotlyChart (fig : Figure)
| Info (body : string)
| Error (body : string)
| ExceptionBox (cls msg : string).

(** What [pd.read_parquet] finds at a path: a table, or a failure of some
    [Exception] class (missing file, malformed content, permissions). *)
Inductive File : Type :=
| Parquet (df : DataFrame)
| Unreadable (cls msg : string).

(** The value returned by [load_data]. *)
Definition LoadResult : Type :=
  option DataFrame * option DataFrame * option DataFrame.

(** The three table objects bound to the local variables of [main]. *)
Record Locals : Type := mkLocals {
  games_df : option DataFrame;
  reviews_df : option DataFrame;
  logs_df : option DataFrame
}.

(** The state a script run acts on. *)
Record World : Type := mkWorld {
  storage : string → File;       (* the files, by path *)
  reads : list string;           (* paths read so far, oldest first *)
  cache : option (LoadResult * list Element);
                                 (* the [st.cache_data] entry of [load_data]:
                                    its value and the elements to replay *)
  page : list Element;           (* elements emitted by the current run *)
  locals : Locals
}.

Definition set_reads (f : list string → list string) (w : World) : World :=
  {| storage := storage w; reads := f (reads w); cache := cache w;
     page := page w; locals := locals w |}.
Definition set_cache (c : option (LoadResult * list Element)) (w : World)
  : World :=
  {| storage := storage w; reads := reads w; cache := c;
     page := page w; locals := locals w |}.
Definition set_page (f : list Element → list Element) (w : World) : World :=
  {| storage := storage w; reads := reads w; cache := cache w;
     page := f (page w); locals := locals w |}.
Definition set_locals (f : Locals → Locals) (w : World) : World :=
  {| storage := storage w; reads := reads w; cache := cache w;
     page := page w; locals := f (locals w) |}.
Definition set_storage (fs : string → File) (w : World) : World :=
  {| storage := fs; reads := reads w; cache := cache w;
     page := page w; locals := locals w |}.

(** The script monad: state passing with exceptions; the state survives a
    raise. *)
Definition Script (A : Type) : Type := World → outcome A * World.

#[global] Instance script_ret : MRet Script :=
  λ A a w, (Returns a, w).

#[global] Instance script_bind : MBind Script :=
  λ A B k m w,
    match m w with
    | (Returns a, w') => k a w'
    | (Raises e, w') => (Raises e, w')
    end.

Definition raise {A : Type} (e : exn) : Script A :=
  λ w, (Raises e, w).

Definition lift {A : Type} (o : outcome A) : Script A :=
  λ w, (o, w).

Definition gets {A : Type} (f : World → A) : Script A :=
  λ w, (Returns (f w), w).

Definition modify (f : World → World) : Script unit :=
  λ w, (Returns tt, f w).

(** [try: body except Exception as e: handler(str(e))] *)
Definition try_except {A : Type} (body : Script A) (handler : string → Script A)
  : Script A :=
  λ w,
    match body w with
    | (Raises (Exception _ msg), w') => handler msg w'
    | r => r
    end.

(** Any [st.<element>(...)] call. *)
Definition emit (el : Element) : Script unit :=
  modify (set_page (λ p, p ++ [el])).

(** [pd.read_parquet(path)] *)
Definition read_parquet (path : string) : Script DataFrame :=
  λ w,
    let w' := set_reads (λ r, r ++ [path]) w in
    match storage w path with
    | Parquet df => (Returns df, w')
    | Unreadable cls msg => (Raises (Exception cls msg), w')
    end.

(** [@st.cache_data] on a function without arguments.  On a hit the
    stored value is returned (as a fresh copy: callers cannot alter the
    stored one) and the elements recorded during the original call are
    replayed.  On a miss the function runs; if it returns, its value and
    the elements it emitted are stored.  An exception is not stored. *)
Definition cache_data (f : Script LoadResult) : Script LoadResult :=
  λ w,
    match cache w with
    | Some (v, replay) => (Returns v, set_page (λ p, p ++ replay) w)
    | None =>
        match f w with
        | (Returns v, w') =>
            (Returns v,
             set_cache (Some (v, drop (length (page w)) (page w'))) w')
        | (Raises e, w') => (Raises e, w')
        end
    end.

(** [st.cache_data.clear()] *)
Definition cache_clear : Script unit := modify (set_cache None).

(** [st.rerun()] *)
Definition rerun : Script unit := raise RerunException.

(** The widget values of one script run and the wall clock at that time,
    already formatted with ['%H:%M:%S']. *)
Record Inputs : Type := mkInputs {
  auto_refresh_checked : bool;
  refresh_clicked : bool;
  clock : string
}.

Definition checkbox (label : string) (value : bool) : Script bool :=
  emit (Checkbox label);; mret value.

Definition button (label : string) (value : bool) : Script bool :=
  emit (Button label);; mret value.

End Streamlit.

Export Streamlit.

(* ===================================================================== *)
(** ** The dashboard script *)
(* ===================================================================== *)

Module Dashboard.

Definition dquote : string := String (ascii_of_nat 34) EmptyString.

Definition games_path : string := "steam-gaming-dashboard/games.parquet".
Definition reviews_path : string := "steam-gaming-dashboard/reviews.parquet".
Definition logs_path : string := "steam-gaming-dashboard/logs.parquet".

(** *** [load_data] (lines 39-48) *)

(** The undecorated function body. *)
Definition load_data_body : Script LoadResult :=
  try_except
    (games_df ← read_parquet games_path;
     reviews_df ← read_parquet reviews_path;
     logs_df ← read_parquet logs_path;
     mret (Some games_df, Some reviews_df, Some logs_df))
    (λ e,
       emit (Error ("Error loading data: " +:+ e));;
       mret (None, None, None)).

Definition load_data : Script LoadResult := cache_data load_data_body.

(** *** [main] (lines 51-140) *)

Definition header_html : string :=
  "<div class=" +:+ dquote +:+ "main-header" +:+ dquote
    +:+ ">🎮 Gaming Analytics Dashboard</div>".

(** Lines 62-69. *)
Definition sidebar (ui : Inputs) : Script unit :=
  emit (Markdown "### 📊 System Status");;
  emit (Success "Analytics API: Online");;
  auto_refresh ← checkbox "Auto Refresh (30s)" (auto_refresh_checked ui);
  clicked ← button "🔄 Refresh Now" (refresh_clicked ui);
  (if clicked : bool then cache_clear;; rerun else mret tt);;
  emit (Markdown ("**Last Updated:** " +:+ clock ui)).

(** Lines 75-77. *)
Definition total_games_metric : Script unit :=
  games_df ← gets (games_df ∘ locals);
  let total_games :=
    match games_df with Some df => len df | None => 0%nat end in
  emit (Metric "Total Games" (format_comma total_games)).

(** Lines 79-81. *)
Definition total_reviews_metric : Script unit :=
  reviews_df ← gets (reviews_df ∘ locals);
  let total_reviews :=
    match reviews_df with Some df => len df | None => 0%nat end in
  emit (Metric "Total Reviews" (format_comma total_reviews)).

(** Lines 83-85. *)
Definition log_entries_metric : Script unit :=
  logs_df ← gets (logs_df ∘ locals);
  let log_entries :=
    match logs_df with Some df => len df | None => 0%nat end in
  emit (Metric "Log Entries" (format_comma log_entries)).

(** [df is not None and c in df.columns] *)
Definition present_with (df : option DataFrame) (c : string) : bool :=
  match df with
  | Some df => has_column df c
  | None => false
  end.

(** Lines 87-92. *)
Definition avg_playtime_metric : Script unit :=
  reviews_df ← gets (reviews_df ∘ locals);
  match reviews_df with
  | Some df =>
      if has_column df "playtime_hours" then
        col ← lift (getitem df "playtime_hours");
        avg_playtime ← lift (mean col);
        emit (Metric "Avg Playtime" (format_1f avg_playtime +:+ "h"))
      else emit (Metric "Avg Playtime" "N/A")
  | None => emit (Metric "Avg Playtime" "N/A")
  end.

(** Lines 72-92. *)
Definition overview_metrics : Script unit :=
  emit (Markdown "### 📊 Overview Metrics");;
  total_games_metric;;
  total_reviews_metric;;
  log_entries_metric;;
  avg_playtime_metric.

Definition playtime_bins : list num :=
  [of_Z 0; of_Z 10; of_Z 50; of_Z 100; PInf].

Definition playtime_labels : list string :=
  ["0-10h"; "10-50h"; "50-100h"; "100h+"].

(** Lines 99-117.  The assignment on line 102 updates the table object
    bound to [reviews_df]; line 107 reads the new column back from it. *)
Definition playtime_distribution : Script unit :=
  emit (Markdown "**Player Playtime Distribution**");;
  reviews_df ← gets (reviews_df ∘ locals);
  match reviews_df with
  | Some df =>
      if has_column df "playtime_hours" then
        col ← lift (getitem df "playtime_hours");
        binned ← lift (cut col playtime_bins playtime_labels);
        let df' := setitem df "playtime_bin" binned in
        modify (set_locals (λ l,
          mkLocals (games_df l) (Some df') (logs_df l)));;
        bin_col ← lift (getitem df' "playtime_bin");
        let playtime_dist := value_counts bin_col in
        let fig :=
          px_pie (playtime_dist.*2) (playtime_dist.*1)
            "Playtime Distribution" in
        let fig := update_traces fig "inside" "percent+label" in
        emit (PlotlyChart fig)
      else emit (Info "Playtime data not available")
  | None => emit (Info "Playtime data not available")
  end.

(** Lines 120-125. *)
Definition active_players_metric : Script unit :=
  logs_df ← gets (logs_df ∘ locals);
  match logs_df with
  | Some df =>
      if has_column df "player_id" then
        col ← lift (getitem df "player_id");
        let active_players := nunique col in
        emit (Metric "Active Players" (format_comma active_players))
      else emit (Metric "Active Players" "N/A")
  | None => emit (Metric "Active Players" "N/A")
  end.

(** Lines 127-136. *)
Definition sentiment_score_metric : Script unit :=
  reviews_df ← gets (reviews_df ∘ locals);
  match reviews_df with
  | Some df =>
      if has_column df "helpful_votes" && has_column df "total_votes" then
        helpful ← lift (getitem df "helpful_votes");
        helpful_sum ← lift (sum helpful);
        total ← lift (getitem df "total_votes");
        total_sum ← lift (sum total);
        let sentiment_score :=
          nmul (ndiv helpful_sum total_sum) (of_Z 100) in
        emit (Metric "Sentiment Score" (format_1f sentiment_score +:+ "%"))
      else emit (Metric "Sentiment Score" "62.4%")
  | None => emit (Metric "Sentiment Score" "N/A")
  end.

(** Lines 94-136. *)
Definition player_analytics : Script unit :=
  emit (Markdown "### 👥 Player Analytics");;
  playtime_distribution;;
  active_players_metric;;
  sentiment_score_metric.

Definition files_not_found : string :=
  "📁 Data files not found! Please ensure parquet files are in the project directory.".

Definition required_files : string :=
  "Required files: games.parquet, reviews.parquet, logs.parquet".

(** Lines 60-140: everything after the call of [load_data], on the tables
    bound to the locals. *)
Definition render (ui : Inputs) : Script unit :=
  games_df ← gets (games_df ∘ locals);
  match games_df with
  | Some _ =>
      sidebar ui;;
      overview_metrics;;
      player_analytics
  | None =>
      emit (Error files_not_found);;
      emit (Info required_files)
  end.

Definition bind_locals (r : LoadResult) : Script unit :=
  modify (set_locals (λ _,
    {| games_df := r.1.1; reviews_df := r.1.2; logs_df := r.2 |})).

Definition main (ui : Inputs) : Script unit :=
  emit (Markdown header_html);;
  emit (Markdown "*Real-time insights dari Steam gaming data lakehouse*");;
  tables ← load_data;
  bind_locals tables;;
  render ui.

(** *** The Streamlit runtime around [main] *)

(** A run starts on an empty page. *)
Definition new_run (w : World) : World := set_page (λ _, []) w.

Definition unclicked (ui : Inputs) : Inputs :=
  {| auto_refresh_checked := auto_refresh_checked ui;
     refresh_clicked := false;
     clock := clock ui |}.

(** An escaping [Exception] is shown on the page. *)
Definition finish (r : outcome unit * World) : World :=
  match r with
  | (Raises (Exception cls msg), w) =>
      set_page (λ p, p ++ [ExceptionBox cls msg]) w
  | (_, w) => w
  end.

(** One user interaction: the script runs; if it asks for a rerun it runs
    once more, the button now reading unclicked. *)
Definition run (ui : Inputs) (w : World) : World :=
  match main ui (new_run w) with
  | (Raises RerunException, w') => finish (main (unclicked ui) (new_run w'))
  | r => finish r
  end.

(** *** Repeated invocations of the loader *)

(** What can happen between and around invocations of [load_data]: an
    invocation, an explicit cache clear, and a change of the stored files
    by the outside world. *)
Inductive action : Type :=
| Invoke
| Clear
| Rewrite (fs : string → File).

Definition is_clear (a : action) : bool :=
  match a with Clear => true | _ => false end.

(** Runs the actions in order and collects the outcome of every
    invocation. *)
Fixpoint replay (acts : list action) (w : World)
  : list (outcome LoadResult) * World :=
  match acts with
  | [] => ([], w)
  | Invoke :: acts' =>
      let (r, w') := load_data w in
      let (rs, w'') := replay acts' w' in
      (r :: rs, w'')
  | Clear :: acts' => replay acts' (snd (cache_clear w))
  | Rewrite fs :: acts' => replay acts' (set_storage fs w)
  end.

End Dashboard.

Export Dashboard.

(* ===================================================================== *)
(** ** Vocabulary of the statements *)
(* ===================================================================== *)

Module Vocabulary.

(** Membership in the interval [(lo, hi]], as [pd.cut] bins by default. *)
Definition in_bin (lo hi x : num) : bool := nlt lo x && nle x hi.


(** Number of rows whose value lies in [(lo, hi]]. *)
Definition rows_within (lo hi : num) (xs : list num) : nat :=
  length (filter (λ x, in_bin lo hi x = true) xs).


(** The count a pie figure shows for a label. *)
Definition slice (fig : Figure) (label : string) : option nat :=
  count_of label (zip (fig_names fig) (fig_values fig)).

(** Row count of a table that may be absent. *)
Definition row_count (t : option DataFrame) : nat :=
  match t with
  | Some df => len df
  | None => 0%nat
  end.




(** The finite cells of a numeric column. *)
Definition finite_cells (xs : list num) : list Q :=
  omap (λ x, match x with Fin q => Some q | _ => None end) xs.

Definition Qsum (qs : list Q) : Q := foldr Qplus 0%Q qs.


Definition no_infinity (x : num) : Prop := x ≠ PInf ∧ x ≠ NInf.

(** The two shapes of a value returned by the loader body. *)
Definition all_present (v : LoadResult) : Prop :=
  ∃ g r l, v = (Some g, Some r, Some l).

Definition all_absent (v : LoadResult) : Prop := v = (None, None, None).

Definition load_error (msg : string) : Element :=
  Error ("Error loading data: " +:+ msg).

(** A cache entry as the loader body produces them. *)
Definition entry_consistent (e : LoadResult * list Element) : Prop :=
  (all_present e.1 ∧ e.2 = [])
  ∨ (all_absent e.1 ∧ ∃ msg, e.2 = [load_error msg]).

Definition cache_consistent (w : World) : Prop :=
  match cache w with
  | Some e => entry_consistent e
  | None => True
  end.

Definition is_metric (el : Element) : bool :=
  match el with
  | Metric _ _ => true
  | _ => false
  end.

Definition is_error (el : Element) : bool :=
  match el with
  | Error _ => true
  | _ => false
  end.

(** The message of the first unreadable file, in reading order. *)
Definition first_failure (w : World) : option string :=
  match storage w games_path with
  | Unreadable _ msg => Some msg
  | Parquet _ =>
      match storage w reviews_path with
      | Unreadable _ msg => Some msg
      | Parquet _ =>
          match storage w logs_path with
          | Unreadable _ msg => Some msg
          | Parquet _ => None
          end
      end
  end.

(** The bucket column [pd.cut] derives from a playtime column. *)
Definition bucket_column (xs : list num) : Series :=
  Categorical playtime_labels (cut_cell playtime_bins playtime_labels <$> xs).

(** [df'] is [df] with the bucket column derived from its playtime column
    assigned under the name [playtime_bin]. *)
Definition bucketed (df df' : DataFrame) : Prop :=
  ∃ xs,
    columns df !! "playtime_hours" = Some (Numeric xs)
    ∧ df' = setitem df "playtime_bin" (bucket_column xs).

(** The reviews object is untouched or has become its bucketed version. *)
Definition reviews_step (r r' : option DataFrame) : Prop :=
  r' = r ∨ ∃ df df', r = Some df ∧ r' = Some df' ∧ bucketed df df'.

(** Two tables that agree on their index and on every column other than
    [playtime_bin]. *)
Definition same_but_bucket (df df' : DataFrame) : Prop :=
  index_len df' = index_len df
  ∧ ∀ c, c ≠ "playtime_bin" → columns df' !! c = columns df !! c.

(** How the world may differ after a part of the rendering code has run:
    no file is read or changed, the cached entry is kept or dropped as a
    whole, the page only grows, and of the three table objects only the
    reviews one may change, by a [reviews_step]. *)
Record evolves (w w' : World) : Prop := mkEvolves {
  ev_storage : storage w' = storage w;
  ev_reads : reads w' = reads w;
  ev_cache : cache w' = cache w ∨ cache w' = None;
  ev_page : ∃ els, page w' = page w ++ els;
  ev_games : games_df (locals w') = games_df (locals w);
  ev_logs : logs_df (locals w') = logs_df (locals w);
  ev_reviews : reviews_step (reviews_df (locals w)) (reviews_df (locals w'))
}.

(** The final world of every run of [m] is related to the initial one. *)
Definition follows {A : Type} (R : relation World) (m : Script A) : Prop :=
  ∀ w, R w (m w).2.

(** The pie figures on a page and the counts they show for a label. *)
Definition charts (p : list Element) : list Figure :=
  omap (λ el, match el with PlotlyChart fig => Some fig | _ => None end) p.

Definition shown_counts (p : list Element) (label : string)
  : list (option nat) :=
  (λ fig, slice fig label) <$> charts p.

(** The metric values a page shows under a label. *)
Definition metric_values (p : list Element) (label : string) : list string :=
  omap (λ el,
    match el with
    | Metric l v => if String.eqb l label then Some v else None
    | _ => None
    end) p.


(** The elements of the sidebar and the heading of the overview row. *)
Definition before_metrics (ui : Inputs) : list Element :=
  [Markdown "### 📊 System Status";
   Success "Analytics API: Online";
   Checkbox "Auto Refresh (30s)";
   Button "🔄 Refresh Now";
   Markdown ("**Last Updated:** " +:+ clock ui);
   Markdown "### 📊 Overview Metrics"].

(** An invocation of the loader. *)
Definition is_invoke (a : action) : bool :=
  match a with Invoke => true | _ => false end.

End Vocabulary.

Export Vocabulary.

(* ===================================================================== *)
(** ** Sample tables and worlds *)
(* ===================================================================== *)

Module Samples.

Definition ints (zs : list Z) : Series := Numeric (of_Z <$> zs).

(** Four reviews: playtimes 5, 15, 60, 150; helpful votes summing to 80
    and total votes summing to 100. *)
Definition reviews : DataFrame :=
  {| index_len := 4;
     columns :=
       <["playtime_hours" := ints [5; 15; 60; 150]%Z]>
       (<["helpful_votes" := ints [30; 50; 0; 0]%Z]>
       (<["total_votes" := ints [30; 50; 10; 10]%Z]> ∅)) |}.





Definition logs : DataFrame :=
  {| index_len := 4;
     columns := {["player_id" := ints [1; 1; 2; 3]%Z]} |}.

Definition games : DataFrame :=
  {| index_len := 1234; columns := {["name" := Text [Some "Portal"]]} |}.

Definition disk (p : string) : File :=
  if String.eqb p games_path then Parquet games
  else if String.eqb p reviews_path then Parquet reviews
  else if String.eqb p logs_path then Parquet logs
  else Unreadable "FileNotFoundError" "No such file or directory".

Definition empty_disk (p : string) : File :=
  Unreadable "FileNotFoundError" "No such file or directory".

Definition no_locals : Locals :=
  {| games_df := None; reviews_df := None; logs_df := None |}.

(** A fresh process on a disk holding the three files. *)
Definition fresh : World :=
  {| storage := disk; reads := []; cache := None; page := [];
     locals := no_locals |}.

(** A fresh process on a disk without the files. *)
Definition fresh_empty : World :=
  {| storage := empty_disk; reads := []; cache := None; page := [];
     locals := no_locals |}.

(** The locals as [main] binds them after a successful load. *)
Definition loaded : World :=
  {| storage := disk; reads := []; cache := None; page := [];
     locals :=
       {| games_df := Some games; reviews_df := Some reviews;
          logs_df := Some logs |} |}.

Definition with_reviews (r : option DataFrame) : World :=
  {| storage := disk; reads := []; cache := None; page := [];
     locals :=
       {| games_df := Some games; reviews_df := r; logs_df := Some logs |} |}.

Definition idle : Inputs :=
  {| auto_refresh_checked := false; refresh_clicked := false;
     clock := "12:00:00" |}.

End Samples.

(* ===================================================================== *)
(** ** Binary64 rounding, as a specification *)
(* ===================================================================== *)

Module Precision.

(** [m] is the integer nearest to [y], the even one of the two when [y]
    lies half way between them. *)
Definition nearest_even (m : Z) (y : Q) : Prop :=
  (Qabs (inject_Z m - y) <= 1 # 2)%Q
  ∧ ((Qabs (inject_Z m - y) == 1 # 2)%Q → Z.even m = true).

(** [e] is the exponent of the unit in the last place of the binary64
    numbers around [x]: [2^(e+52) <= |x| < 2^(e+53)], or [e = -1074] for
    the subnormal range below. *)
Definition binade (x : Q) (e : Z) : Prop :=
  (-1074 ≤ e)%Z
  ∧ (Qabs x < 2 ^ (e + 53))%Q
  ∧ (e = (-1074)%Z ∨ (2 ^ (e + 52) <= Qabs x)%Q).

(** [r] is the binary64 number that IEEE 754 arithmetic returns for the
    exact result [x]: the multiple of the unit in the last place nearest
    to [x], ties to even, and no overflow. *)
Definition binary64_of (x r : Q) : Prop :=
  ∃ e m,
    binade x e
    ∧ nearest_even m (x / 2 ^ e)
    ∧ (r == inject_Z m * 2 ^ e)%Q
    ∧ (Qabs r < 2 ^ 1024)%Q.

(** The value of one of the kernel's binary64 numbers. *)
Definition of_float (f : float) : num :=
  match Prim2SF f with
  | S754_zero _ => Fin 0
  | S754_infinity false => PInf
  | S754_infinity true => NInf
  | S754_nan => NaN
  | S754_finite s m e =>
      Fin (Qred ((if s then -1 else 1) * inject_Z (Z.pos m) * 2 ^ e))
  end.

End Precision.

Export Precision.

(* ===================================================================== *)
(** ** Columns that are summed exactly *)
(* ===================================================================== *)

Module Exactness.

(** [q] is an integer multiple of [2^-k]. *)
Definition dyadic (k : nat) (q : Q) : Prop :=
  ∃ z : Z, (q == inject_Z z * 2 ^ (- Z.of_nat k))%Q.

(** A float64 or int64 column whose sum pandas computes without any
    rounding or wrap-around, in whatever order it adds: no cell is
    infinite, every cell is an integer multiple of [2^-k], and the
    absolute values add up to less than [2^53] such multiples.  Every
    partial sum is then such a multiple below [2^53] of them, which is a
    binary64 number (and, for [k = 0], an int64 number).  The column has
    fewer than [2^53] rows, so that its count is a binary64 number
    too. *)
Definition exactly_summable (k : nat) (xs : list num) : Prop :=
  (k ≤ 1021)%nat
  ∧ Forall (λ x, match x with
                 | Fin q => dyadic k q
                 | NaN => True
                 | _ => False
                 end) xs
  ∧ (Qsum (Qabs <$> finite_cells xs) < 2 ^ (53 - Z.of_nat k))%Q
  ∧ (Z.of_nat (length xs) < 2 ^ 53)%Z.

(** A column of vote counts: whole numbers that are not negative (or
    missing values), with a sum below [2^53]. *)
Definition vote_counts (xs : list num) : Prop :=
  exactly_summable 0 xs ∧ Forall (λ q, (0 <= q)%Q) (finite_cells xs).

End Exactness.

Export Exactness.

(* ===================================================================== *)
(** ** Thousands separators, as a specification *)
(* ===================================================================== *)

Module Separators.



End Separators.

Export Separators.

(* ===================================================================== *)
(** ** Sessions *)
(* ===================================================================== *)

Module Session.

(** What happens over the life of the process: the user interacts with
    the page (every interaction is one [run]), and the outside world may
    replace the files between two runs. *)
Inductive step : Type :=
| Interact (ui : Inputs)
| FilesChange (fs : string → File).

Fixpoint session (steps : list step) (w : World) : World :=
  match steps with
  | [] => w
  | Interact ui :: rest => session rest (run ui w)
  | FilesChange fs :: rest => session rest (set_storage fs w)
  end.

(** A step that does not click the refresh button. *)
Definition without_click (s : step) : Prop :=
  match s with
  | Interact ui => refresh_clicked ui = false
  | FilesChange _ => True
  end.

(** The two elements [main] emits before it calls the loader. *)
Definition banner : list Element :=
  [Markdown header_html;
   Markdown "*Real-time insights dari Steam gaming data lakehouse*"].

(** The page of a run whose load failed with message [msg]. *)
Definition failure_page (msg : string) : list Element :=
  banner ++ [load_error msg; Error files_not_found; Info required_files].

(** The paths the loader reads before it stops: all three, or those up to
    and including the first unreadable one. *)
Definition paths_read (w : World) : list string :=
  match storage w games_path with
  | Unreadable _ _ => [games_path]
  | Parquet _ =>
      match storage w reviews_path with
      | Unreadable _ _ => [games_path; reviews_path]
      | Parquet _ => [games_path; reviews_path; logs_path]
      end
  end.

(** Two runs get the same button state and clock reading; the state of
    the auto-refresh checkbox may differ. *)
Definition same_controls (ui ui' : Inputs) : Prop :=
  refresh_clicked ui = refresh_clicked ui' ∧ clock ui = clock ui'.

(** The world after the two banner elements, where [main] calls the
    loader, and the world after it has bound the returned tables. *)
Definition greeted (w : World) : World :=
  set_page
    (λ p, p ++ [Markdown "*Real-time insights dari Steam gaming data lakehouse*"])
    (set_page (λ p, p ++ [Markdown header_html]) w).

Definition bound (v : LoadResult) (w : World) : World :=
  set_locals
    (λ _, {| games_df := v.1.1; reviews_df := v.1.2; logs_df := v.2 |}) w.

(** The world once the sidebar, the overview heading and the three count
    metrics are on the page. *)
Definition counted (ui : Inputs) (w : World) : World :=
  set_page
    (λ p, p ++ before_metrics ui
            ++ [Metric "Total Games"
                  (format_comma (row_count (games_df (locals w))));
                Metric "Total Reviews"
                  (format_comma (row_count (reviews_df (locals w))));
                Metric "Log Entries"
                  (format_comma (row_count (logs_df (locals w))))]) w.

(** The same world with other files and another read log. *)
Definition outside (fs : string → File) (rd : list string) (w : World)
  : World :=
  set_storage fs (set_reads (λ _, rd) w).

End Session.

Export Session.

(* ===================================================================== *)
(** ** Properties of pieces of script *)
(* ===================================================================== *)

Module Behaviour.

(** Nothing is read from storage and the cache is left alone. *)
Definition quiet (w w' : World) : Prop :=
  storage w' = storage w ∧ reads w' = reads w ∧ cache w' = cache w.

(** A piece of script that is quiet and never asks for a rerun. *)
Definition calm {A : Type} (m : Script A) : Prop :=
  ∀ w, quiet w (m w).2 ∧ (m w).1 ≠ Raises RerunException.

(** A change of the world that is out of sight of code that only reads
    the locals and only writes the page and the locals. *)
Record unseen (g : World → World) : Prop := mkUnseen {
  unseen_locals : ∀ w, locals (g w) = locals w;
  unseen_page : ∀ f w, g (set_page f w) = set_page f (g w);
  unseen_set_locals : ∀ f w, g (set_locals f w) = set_locals f (g w)
}.

(** [m] does the same whether or not the world was changed by [g]. *)
Definition blind {A : Type} (g : World → World) (m : Script A) : Prop :=
  ∀ w, m (g w) = ((m w).1, g (m w).2).

(** A piece of script that returns and adds the elements [els]. *)
Definition emits (m : Script unit) (w : World) (els : list Element) : Prop :=
  (m w).1 = Returns tt ∧ page (m w).2 = page w ++ els.

(** A piece of script that adds the elements [els] and raises [e]. *)
Definition fails (m : Script unit) (w : World) (els : list Element)
    (e : exn) : Prop :=
  (m w).1 = Raises e ∧ page (m w).2 = page w ++ els.


Definition is_type_error (e : exn) : Prop := ∃ msg, e = TypeError msg.

End Behaviour.

Export Behaviour.

(* ===================================================================== *)
(** ** Properties of tables and of what is shown *)
(* ===================================================================== *)

Module Shapes.

(** Rows whose playtime is above 0 (missing values are not). *)
Definition rows_positive (xs : list num) : nat :=
  length (filter (λ x, nlt (of_Z 0) x = true) xs).

(** Rows that [pd.cut] leaves without a bin: missing, zero or negative
    playtime. *)
Definition rows_unbinned (xs : list num) : nat :=
  length (filter (λ x, nlt (of_Z 0) x = false) xs).

(** The playtime column of the reviews table can be averaged and cut:
    it is numeric, or there is none. *)
Definition playtime_averageable (r : option DataFrame) : Prop :=
  match r with
  | Some df =>
      match columns df !! "playtime_hours" with
      | Some (Numeric _) | None => True
      | Some _ => False
      end
  | None => True
  end.

(** The vote columns of the reviews table can be summed and divided:
    both are numeric, or one of them is not there. *)
Definition votes_summable (r : option DataFrame) : Prop :=
  match r with
  | Some df =>
      match columns df !! "helpful_votes", columns df !! "total_votes" with
      | Some (Numeric _), Some (Numeric _) => True
      | Some _, Some _ => False
      | _, _ => True
      end
  | None => True
  end.

(** A column on which the reductions of the script raise: a categorical
    column, or a text column with at least one string in it. *)
Definition not_reducible (s : Series) : Prop :=
  match s with
  | Numeric _ => False
  | Text xs => notnull xs ≠ []
  | Categorical _ _ => True
  end.

(** One row of vote counts as a review site records them: the helpful
    votes are among the total votes; a missing total comes with a missing
    helpful count. *)
Definition votes_row (h t : num) : Prop :=
  match h, t with
  | Fin a, Fin b => (0 <= a)%Q ∧ (a <= b)%Q
  | NaN, Fin b => (0 <= b)%Q
  | NaN, NaN => True
  | _, _ => False
  end.

(** The chart position of the page holds a pie chart or the
    placeholder. *)
Definition chart_or_placeholder (el : Element) : Prop :=
  el = Info "Playtime data not available" ∨ ∃ fig, el = PlotlyChart fig.




End Shapes.

Export Shapes.

(* ===================================================================== *)
(** ** Further sample tables and inputs *)
(* ===================================================================== *)

Module Cases.

(** Reviews whose playtime was recorded as text. *)
Definition reviews_text : DataFrame :=
  {| index_len := 2;
     columns := {["playtime_hours" := Text [Some "12"; Some "n/a"]]} |}.

(** Reviews without a single recorded playtime. *)
Definition reviews_blank : DataFrame :=
  {| index_len := 2;
     columns := {["playtime_hours" := Numeric [NaN; NaN]]} |}.

(** Reviews whose helpful votes were recorded as text. *)
Definition reviews_words : DataFrame :=
  {| index_len := 2;
     columns :=
       <["helpful_votes" := Text [Some "three"; None]]>
       (<["total_votes" := Samples.ints [5; 7]%Z]> ∅) |}.


(** A click on the refresh button. *)
Definition click : Inputs :=
  {| auto_refresh_checked := false; refresh_clicked := true;
     clock := "12:00:05" |}.

(** The inputs of [Samples.idle] with the auto-refresh box ticked. *)
Definition auto : Inputs :=
  {| auto_refresh_checked := true; refresh_clicked := false;
     clock := "12:00:00" |}.




End Cases.

(* ===================================================================== *)
(** ** Facts about the numeric layer *)
(* ===================================================================== *)

Module NumericFacts.

Lemma Qle_bool_inject n d c :
  Qle_bool (n # d) (inject_Z c) = (n <=? c * Z.pos d)%Z.
Proof. unfold Qle_bool. simpl. by rewrite Z.mul_1_r. Qed.

Lemma Qsign_Eq q : Qsign q = Eq ↔ (q == 0)%Q.
Proof.
  destruct q as [n d]. unfold Qsign, Qeq. simpl.
  rewrite Z.compare_eq_iff. lia.
Qed.

Lemma Qsign_Gt q : Qsign q = Gt ↔ (0 < q)%Q.
Proof.
  destruct q as [n d]. unfold Qsign, Qlt. simpl.
  rewrite Z.compare_gt_iff. lia.
Qed.

Lemma Qsign_Lt q : Qsign q = Lt ↔ (q < 0)%Q.
Proof.
  destruct q as [n d]. unfold Qsign, Qlt. simpl.
  rewrite Z.compare_lt_iff. lia.
Qed.



Lemma neqb_sym x y : neqb x y = neqb y x.
Proof.
  destruct x as [a| | |], y as [b| | |]; simpl; try done.
  apply eq_true_iff_eq. rewrite !Qeq_bool_iff. split; intros ->; reflexivity.
Qed.




(** The three spellings of a non-finite value. *)
Lemma format_1f_not_finite x :
  isfinite x = false → format_1f x ∈ ["inf"; "-inf"; "nan"].
Proof. destruct x; simpl; try done; intros _; repeat constructor. Qed.

Lemma round_half_even_nonneg q : (0 <= q)%Q → (0 ≤ round_half_even q)%Z.
Proof.
  destruct q as [n d]. unfold Qle, round_half_even. simpl. intros Hn.
  assert (0 ≤ n `div` Z.pos d)%Z by (apply Z.div_pos; lia).
  repeat case_match; lia.
Qed.

Lemma tenths_nonneg q : (0 ≤ tenths q)%Z.
Proof.
  apply round_half_even_nonneg.
  apply Qmult_le_0_compat; [apply Qabs_nonneg | done].
Qed.

Lemma pretty_digit z :
  (0 ≤ z < 10)%Z → ∃ c, pretty z = String c EmptyString ∧ is_digit c = true.
Proof.
  intros Hz.
  assert (z = 0 ∨ z = 1 ∨ z = 2 ∨ z = 3 ∨ z = 4 ∨ z = 5 ∨ z = 6 ∨ z = 7
          ∨ z = 8 ∨ z = 9)%Z as Hcases by lia.
  repeat (destruct Hcases as [->|Hcases]; [by eexists|]).
  subst. by eexists.
Qed.

(** A finite value is printed as an optional sign, an integer part, a
    point and exactly one digit. *)
Lemma format_1f_one_decimal q :
  ∃ sign n c,
    format_1f (Fin q) = sign +:+ pretty n +:+ "." +:+ String c EmptyString
    ∧ (sign = EmptyString ∨ sign = "-") ∧ (0 ≤ n)%Z ∧ is_digit c = true.
Proof.
  pose proof (tenths_nonneg q) as Ht.
  destruct (pretty_digit (tenths q `mod` 10)) as (c & Hc & Hd).
  { apply Z.mod_pos_bound. lia. }
  exists (match Qsign q with Lt => "-" | _ => EmptyString end),
    (tenths q `div` 10)%Z, c.
  split_and!; [| |apply Z.div_pos; lia|done].
  - unfold format_1f. by rewrite Hc.
  - destruct (Qsign q); auto.
Qed.

(** The printed tenths are nearest to the value. *)
Lemma round_half_even_close q :
  (Qabs (inject_Z (round_half_even q) - q) <= 1 # 2)%Q.
Proof.
  destruct q as [n d]. unfold round_half_even. cbn [Qnum Qden].
  pose proof (Z.div_mod n (Z.pos d) ltac:(lia)) as Hdm.
  pose proof (Z.mod_pos_bound n (Z.pos d) ltac:(lia)) as Hr.
  set (f := (n `div` Z.pos d)%Z) in *. set (r := (n `mod` Z.pos d)%Z) in *.
  assert (Hlo : ∀ k : Z, (2 * n ≤ Z.pos d * (2 * k) + Z.pos d)%Z →
            (- (1 # 2) <= inject_Z k - (n # d))%Q).
  { intros k Hk. unfold Qle, Qminus, Qplus, Qopp, inject_Z. simpl. nia. }
  assert (Hhi : ∀ k : Z, (Z.pos d * (2 * k) ≤ 2 * n + Z.pos d)%Z →
            (inject_Z k - (n # d) <= 1 # 2)%Q).
  { intros k Hk. unfold Qle, Qminus, Qplus, Qopp, inject_Z. simpl. nia. }
  destruct (Z.ltb_spec (2 * r) (Z.pos d)); [|destruct (Z.ltb_spec (Z.pos d) (2 * r));
    [|destruct (Z.even f)]];
    apply Qabs_Qle_condition; (split; [apply Hlo | apply Hhi]); nia.
Qed.

(** The printed tenths are within one twentieth of the absolute value. *)
Lemma tenths_close q :
  (Qabs (inject_Z (tenths q) / 10 - Qabs q) <= 1 # 20)%Q.
Proof.
  pose proof (round_half_even_close (Qabs q * 10)) as H.
  apply Qabs_Qle_condition in H. apply Qabs_Qle_condition.
  fold (tenths q) in H. set (t := inject_Z (tenths q)) in *.
  set (a := Qabs q) in *. destruct H as [H1 H2].
  unfold Qdiv. change (/ 10)%Q with (1 # 10)%Q.
  split; lra.
Qed.

(** The arithmetic of the model against the binary64 arithmetic of the
    kernel: the rules of [ndiv] for a zero divisor, the worked examples
    of the specification (80/100*100 and the mean of 5, 15, 60, 150),
    two values that exact arithmetic would print differently (109/400*100
    and 7/20), and the two ends of the range (subnormal numbers and
    overflow). *)
Example binary64_cross_check :
  PrimFloat.div 80 0 = PrimFloat.infinity
  ∧ PrimFloat.div (-80) 0 = PrimFloat.neg_infinity
  ∧ PrimFloat.is_nan (PrimFloat.div 0 0) = true
  ∧ ndiv (of_Z 80) (of_Z 0) = PInf
  ∧ ndiv (of_Z (-80)) (of_Z 0) = NInf
  ∧ ndiv (of_Z 0) (of_Z 0) = NaN
  ∧ ndiv (of_Z 80) (of_Z 100) = of_float (PrimFloat.div 80 100)
  ∧ nmul (ndiv (of_Z 80) (of_Z 100)) (of_Z 100)
    = of_float (PrimFloat.mul (PrimFloat.div 80 100) 100)
  ∧ nmul (ndiv (of_Z 80) (of_Z 100)) (of_Z 100) = of_Z 80
  ∧ ndiv (of_Z 109) (of_Z 400) = of_float (PrimFloat.div 109 400)
  ∧ nmul (ndiv (of_Z 109) (of_Z 400)) (of_Z 100)
    = of_float (PrimFloat.mul (PrimFloat.div 109 400) 100)
  ∧ format_1f (nmul (ndiv (of_Z 109) (of_Z 400)) (of_Z 100)) = "27.3"
  ∧ ndiv (of_Z 7) (of_Z 20) = of_float (PrimFloat.div 7 20)
  ∧ format_1f (ndiv (of_Z 7) (of_Z 20)) = "0.3"
  ∧ ndiv (of_Z 230) (of_Z 4) = of_float (PrimFloat.div 230 4)
  ∧ ndiv (of_Z 230) (of_Z 4) = Fin (115 # 2)
  ∧ ndiv (of_Z 1) (of_Z 3) = of_float (PrimFloat.div 1 3)
  ∧ ndiv (of_Z (-2)) (of_Z 3) = of_float (PrimFloat.div (-2) 3)
  ∧ ndiv (of_Z 1) (Fin (2 ^ 1074)) = of_float (PrimFloat.next_up 0)
  ∧ ndiv (of_Z 1) (Fin (2 ^ 1075)) = of_float 0
  ∧ ndiv (of_Z 3) (Fin (2 ^ 1075)) = of_float (PrimFloat.next_up (PrimFloat.next_up 0))
  ∧ nmul (Fin (2 ^ 1023)) (of_Z 2) = PInf
  ∧ nmul (Fin (2 ^ 1023)) (of_Z (-2)) = NInf
  ∧ nmul (Fin (2 ^ 1023 - 2 ^ 970)) (of_Z 2)
    = of_float (PrimFloat.next_down PrimFloat.infinity).
Proof. by vm_compute. Qed.

End NumericFacts.

(* ===================================================================== *)
(** ** Facts about rounding *)
(* ===================================================================== *)

Module RoundingFacts.

Import NumericFacts.

(** *** Powers of two *)

Lemma pow2_pos e : (0 < 2 ^ e)%Q.
Proof. by apply Qpower_0_lt. Qed.

Lemma pow2_plus a b : (2 ^ (a + b) == 2 ^ a * 2 ^ b)%Q.
Proof. by apply Qpower_plus. Qed.

Lemma pow2_le a b : (a ≤ b)%Z → (2 ^ a <= 2 ^ b)%Q.
Proof. intros H. by apply Qpower_le_compat_l. Qed.

Lemma pow2_lt a b : (a < b)%Z → (2 ^ a < 2 ^ b)%Q.
Proof. intros H. by apply Qpower_lt_compat_l. Qed.

Lemma pow2_succ a : (2 ^ (a + 1) == 2 * 2 ^ a)%Q.
Proof. rewrite pow2_plus. change (2 ^ 1)%Q with 2%Q. ring. Qed.

Lemma pow2_inject n : (0 ≤ n)%Z → (inject_Z (2 ^ n) == 2 ^ n)%Q.
Proof. intros H. by rewrite Zpower_Qpower. Qed.

Lemma pow2_nonzero e : ¬ (2 ^ e == 0)%Q.
Proof. pose proof (pow2_pos e). lra. Qed.

(** *** The binary logarithm *)

Lemma Qlog2_spec q :
  (0 < q)%Q → (2 ^ Qlog2 q <= q)%Q ∧ (q < 2 ^ (Qlog2 q + 1))%Q.
Proof.
  intros Hq. destruct q as [n d].
  assert (Hn : (0 < n)%Z) by (unfold Qlt in Hq; simpl in Hq; lia).
  unfold Qlog2. cbn [Qnum Qden].
  destruct (Z.log2_spec n Hn) as [Hn1 Hn2].
  destruct (Z.log2_spec (Z.pos d) ltac:(lia)) as [Hd1 Hd2].
  pose proof (Z.log2_nonneg n) as Ha. pose proof (Z.log2_nonneg (Z.pos d)) as Hb.
  set (a := Z.log2 n) in *. set (b := Z.log2 (Z.pos d)) in *.
  assert (Hdpos : (0 < inject_Z (Z.pos d))%Q) by (unfold Qlt; simpl; lia).
  assert (Qn1 : (2 ^ a <= inject_Z n)%Q).
  { rewrite <- pow2_inject by done. by rewrite <- Zle_Qle. }
  assert (Qn2 : (inject_Z n < 2 ^ (a + 1))%Q).
  { rewrite <- pow2_inject by lia. by rewrite <- Zlt_Qlt. }
  assert (Qd1 : (2 ^ b <= inject_Z (Z.pos d))%Q).
  { rewrite <- pow2_inject by done. by rewrite <- Zle_Qle. }
  assert (Qd2 : (inject_Z (Z.pos d) < 2 ^ (b + 1))%Q).
  { rewrite <- pow2_inject by lia. by rewrite <- Zlt_Qlt. }
  assert (Hq' : ((n # d) * inject_Z (Z.pos d) == inject_Z n)%Q).
  { unfold Qeq, Qmult, inject_Z. simpl. lia. }
  set (N := inject_Z n) in *. set (D := inject_Z (Z.pos d)) in *.
  set (q := n # d) in *.
  destruct (Qle_bool (2 ^ (a - b)) q) eqn:E.
  - apply Qle_bool_iff in E. split; [done|].
    apply (Qmult_lt_r _ _ D); [done|].
    assert (H : (2 ^ (a + 1) == 2 ^ (a - b + 1) * 2 ^ b)%Q).
    { rewrite <- pow2_plus. by replace (a - b + 1 + b)%Z with (a + 1)%Z by lia. }
    pose proof (pow2_pos (a - b + 1)). pose proof (pow2_pos b).
    set (P := (2 ^ (a - b + 1))%Q) in *. set (B := (2 ^ b)%Q) in *.
    set (A1 := (2 ^ (a + 1))%Q) in *.
    assert (P * B <= P * D)%Q by (apply Qmult_le_l; done).
    lra.
  - assert (E' : ¬ (2 ^ (a - b) <= q)%Q).
    { intros H%Qle_bool_iff. congruence. }
    apply Qnot_le_lt in E'.
    replace (a - b - 1 + 1)%Z with (a - b)%Z by lia. split; [|done].
    apply (Qmult_le_r _ _ D); [done|].
    assert (H : (2 ^ a == 2 ^ (a - b - 1) * 2 ^ (b + 1))%Q).
    { rewrite <- pow2_plus. by replace (a - b - 1 + (b + 1))%Z with a by lia. }
    pose proof (pow2_pos (a - b - 1)). pose proof (pow2_pos (b + 1)).
    set (P := (2 ^ (a - b - 1))%Q) in *. set (B := (2 ^ (b + 1))%Q) in *.
    set (A0 := (2 ^ a)%Q) in *.
    assert (P * D <= P * B)%Q by (apply Qmult_le_l; [done | lra]).
    lra.
Qed.

(** *** Units in the last place *)

Lemma binade_Qeq x y e : (x == y)%Q → binade x e → binade y e.
Proof. intros H (H1 & H2 & H3). unfold binade. by rewrite <- H. Qed.

Lemma binade_ulp_exp q : ¬ (q == 0)%Q → binade q (ulp_exp q).
Proof.
  intros Hq. unfold binade, ulp_exp.
  assert (Ha : (0 < Qabs q)%Q).
  { pose proof (Qabs_nonneg q). destruct (Qeq_dec (Qabs q) 0) as [E|E]; [|lra].
    destruct Hq. destruct (Qlt_le_dec q 0) as [Hn|Hp].
    - rewrite Qabs_neg in E by lra. lra.
    - rewrite Qabs_pos in E by lra. done. }
  destruct (Qlog2_spec _ Ha) as [H1 H2].
  set (L := Qlog2 (Qabs q)) in *. split; [lia|]. split.
  - eapply Qlt_le_trans; [exact H2|]. apply pow2_le. lia.
  - destruct (Z.max_spec (-1074) (L - 52)) as [[_ ->]|[_ ->]]; [|by left].
    right. by replace (L - 52 + 52)%Z with L by lia.
Qed.

(** *** Nearest integers *)

Lemma nearest_even_Qeq m y y' :
  (y == y')%Q → nearest_even m y → nearest_even m y'.
Proof. intros H [H1 H2]. unfold nearest_even. by rewrite <- H. Qed.

Lemma nearest_even_opp m y : nearest_even m y → nearest_even (- m) (- y).
Proof.
  intros [H1 H2].
  assert (E : (inject_Z (- m) - - y == - (inject_Z m - y))%Q).
  { rewrite inject_Z_opp. ring. }
  unfold nearest_even. rewrite E, Qabs_opp, Z.even_opp. done.
Qed.

Lemma round_half_even_nearest q : nearest_even (round_half_even q) q.
Proof.
  destruct q as [n d]. unfold nearest_even, round_half_even. cbn [Qnum Qden].
  pose proof (Z.div_mod n (Z.pos d) ltac:(lia)) as Hdm.
  pose proof (Z.mod_pos_bound n (Z.pos d) ltac:(lia)) as Hr.
  set (f := (n `div` Z.pos d)%Z) in *. set (r := (n `mod` Z.pos d)%Z) in *.
  assert (Hval : ∀ k : Z,
    (inject_Z k - (n # d) == (k * Z.pos d - n) # d)%Q).
  { intros k. unfold Qeq, Qminus, Qplus, Qopp, inject_Z. simpl. lia. }
  assert (Habs : ∀ z : Z, (Qabs (z # d) == Z.abs z # d)%Q) by done.
  assert (Hle : ∀ z : Z, (Z.abs z # d <= 1 # 2)%Q ↔ (2 * Z.abs z ≤ Z.pos d)%Z).
  { intros z. unfold Qle. simpl. lia. }
  assert (Heq : ∀ z : Z, (Z.abs z # d == 1 # 2)%Q ↔ (2 * Z.abs z = Z.pos d)%Z).
  { intros z. unfold Qeq. simpl. lia. }
  destruct (Z.ltb_spec (2 * r) (Z.pos d)); [|destruct (Z.ltb_spec (Z.pos d) (2 * r));
    [|destruct (Z.even f) eqn:Ev]];
    rewrite Hval, Habs, Hle, Heq; (split; [lia|]); try lia.
  - done.
  - intros _. rewrite Z.even_add, Ev. done.
Qed.

Lemma nearest_even_integer m z : nearest_even m (inject_Z z) → m = z.
Proof.
  intros [H _]. apply Qabs_Qle_condition in H. destruct H as [H1 H2].
  unfold Qle, Qminus, Qplus, Qopp, inject_Z in H1, H2. simpl in H1, H2. lia.
Qed.

Lemma nearest_even_le m y z : nearest_even m y → (y <= inject_Z z)%Q → (m ≤ z)%Z.
Proof.
  intros [H _] Hy. apply Qabs_Qle_condition in H. destruct H as [_ H].
  assert (H' : (inject_Z m <= inject_Z z + (1 # 2))%Q) by lra.
  rewrite <- (Qplus_comm (1 # 2)) in H'.
  unfold Qle, Qplus, inject_Z in H'. simpl in H'. lia.
Qed.

Lemma nearest_even_ge m y z : nearest_even m y → (inject_Z z <= y)%Q → (z ≤ m)%Z.
Proof.
  intros [H _] Hy. apply Qabs_Qle_condition in H. destruct H as [H _].
  assert (H' : (inject_Z z <= inject_Z m + (1 # 2))%Q) by lra.
  unfold Qle, Qplus, inject_Z in H'. simpl in H'. lia.
Qed.

(** *** [round64] *)

Lemma round64_Qeq q q' : (q == q')%Q → round64 q = round64 q'.
Proof. intros H. unfold round64. by rewrite (Qred_complete _ _ H). Qed.

Lemma Qnum_sign q : (Qnum q ?= 0)%Z = Qsign q.
Proof. done. Qed.

Lemma inject_Z_nonneg m : (0 ≤ m)%Z → (0 <= inject_Z m)%Q.
Proof. intros H. change 0%Q with (inject_Z 0). by rewrite <- Zle_Qle. Qed.

Lemma Qabs_pos_lt q : ¬ (q == 0)%Q → (0 < Qabs q)%Q.
Proof.
  intros Hq. pose proof (Qabs_nonneg q).
  destruct (Qeq_dec (Qabs q) 0) as [E|E]; [|lra].
  destruct Hq. destruct (Qlt_le_dec q 0) as [Hn|Hp].
  - rewrite Qabs_neg in E by lra. lra.
  - rewrite Qabs_pos in E by lra. done.
Qed.

(** A finite result of [round64] is the binary64 number that IEEE
    arithmetic returns. *)
Lemma round64_spec q r : round64 q = Fin r → binary64_of q r.
Proof.
  unfold round64. pose proof (Qred_correct q) as Hq.
  set (q' := Qred q) in *. rewrite Qnum_sign.
  destruct (Qsign q') eqn:Hs.
  - intros [= <-]. apply Qsign_Eq in Hs.
    exists (-1074)%Z, 0%Z. split_and!.
    + split; [done|]. split; [|by left].
      rewrite <- Hq, Hs. done.
    + apply (nearest_even_Qeq 0 0); [|done].
      rewrite <- Hq, Hs. unfold Qdiv. ring.
    + ring.
    + done.
  - apply Qsign_Lt in Hs.
    set (e := ulp_exp q'). set (m := round_half_even (Qabs q' / 2 ^ e)).
    set (R := Qred (inject_Z m * 2 ^ e)).
    destruct (Qle_bool (2 ^ 1024) R) eqn:Eo; [done|]. intros [= <-].
    assert (HR : (R == inject_Z m * 2 ^ e)%Q) by apply Qred_correct.
    assert (Hm : (0 ≤ m)%Z).
    { apply round_half_even_nonneg. pose proof (pow2_pos e).
      apply Qle_shift_div_l; [done|]. pose proof (Qabs_nonneg q'). lra. }
    assert (HR0 : (0 <= R)%Q).
    { rewrite HR. pose proof (pow2_pos e).
      apply Qmult_le_0_compat; [by apply inject_Z_nonneg | lra]. }
    exists e, (- m)%Z. split_and!.
    + apply (binade_Qeq q'); [done|]. apply binade_ulp_exp. lra.
    + apply (nearest_even_Qeq _ (- (Qabs q' / 2 ^ e))).
      * rewrite Qabs_neg, <- Hq by lra. unfold Qdiv. ring.
      * apply nearest_even_opp, round_half_even_nearest.
    + rewrite Qred_correct, HR, inject_Z_opp. ring.
    + rewrite Qred_correct, Qabs_opp, Qabs_pos by done.
      apply Qnot_le_lt. intros H%Qle_bool_iff. congruence.
  - apply Qsign_Gt in Hs.
    set (e := ulp_exp q'). set (m := round_half_even (Qabs q' / 2 ^ e)).
    set (R := Qred (inject_Z m * 2 ^ e)).
    destruct (Qle_bool (2 ^ 1024) R) eqn:Eo; [done|]. intros [= <-].
    assert (HR : (R == inject_Z m * 2 ^ e)%Q) by apply Qred_correct.
    assert (Hm : (0 ≤ m)%Z).
    { apply round_half_even_nonneg. pose proof (pow2_pos e).
      apply Qle_shift_div_l; [done|]. pose proof (Qabs_nonneg q'). lra. }
    assert (HR0 : (0 <= R)%Q).
    { rewrite HR. pose proof (pow2_pos e).
      apply Qmult_le_0_compat; [by apply inject_Z_nonneg | lra]. }
    exists e, m. split_and!.
    + apply (binade_Qeq q'); [done|]. apply binade_ulp_exp. lra.
    + apply (nearest_even_Qeq _ (Qabs q' / 2 ^ e)).
      * rewrite Qabs_pos, <- Hq by lra. done.
      * apply round_half_even_nearest.
    + done.
    + rewrite Qabs_pos by done.
      apply Qnot_le_lt. intros H%Qle_bool_iff. congruence.
Qed.

(** *** What follows from the specification *)

(** The distance to the exact result is at most half a unit in the last
    place. *)
Lemma binary64_close x r e m :
  nearest_even m (x / 2 ^ e) → (r == inject_Z m * 2 ^ e)%Q →
  (Qabs (r - x) <= 2 ^ e / 2)%Q.
Proof.
  intros [Hm _] Hr. pose proof (pow2_pos e) as He.
  assert (E : (r - x == (inject_Z m - x / 2 ^ e) * 2 ^ e)%Q).
  { rewrite Hr. field. apply pow2_nonzero. }
  rewrite E, Qabs_Qmult, (Qabs_pos (2 ^ e)) by lra.
  set (d := Qabs (inject_Z m - x / 2 ^ e)) in *.
  assert (d * 2 ^ e <= (1 # 2) * 2 ^ e)%Q by (apply Qmult_le_r; done).
  unfold Qdiv. change (/ 2)%Q with (1 # 2)%Q. lra.
Qed.

Lemma binade_unit x e : binade x e → (2 ^ e <= Qabs x + 1)%Q.
Proof.
  intros (_ & _ & [->|H]).
  - pose proof (Qabs_nonneg x).
    assert ((2 ^ (-1074) <= 1)%Q) by (change 1%Q with (2 ^ 0)%Q; by apply pow2_le).
    lra.
  - pose proof (Qabs_nonneg x).
    assert (2 ^ e <= 2 ^ (e + 52))%Q by (apply pow2_le; lia). lra.
Qed.

Lemma binary64_bound x r : binary64_of x r → (Qabs r <= 2 * Qabs x + 1)%Q.
Proof.
  intros (e & m & He & Hm & Hr & _).
  pose proof (binary64_close x r e m Hm Hr) as Hc.
  pose proof (binade_unit x e He) as Hu. pose proof (pow2_pos e).
  apply Qabs_Qle_condition in Hc. destruct Hc as [Hc1 Hc2].
  pose proof (Qle_Qabs x) as Hx1. pose proof (Qle_Qabs (- x)) as Hx2.
  rewrite Qabs_opp in Hx2.
  unfold Qdiv in Hc1, Hc2. change (/ 2)%Q with (1 # 2)%Q in Hc1, Hc2.
  apply Qabs_Qle_condition. split; lra.
Qed.

(** A result of moderate size is finite. *)
Lemma round64_finite q :
  (Qabs q < 2 ^ 1022)%Q → ∃ r, round64 q = Fin r ∧ binary64_of q r.
Proof.
  intros Hb.
  assert (Hfin : ∃ r, round64 q = Fin r); [|destruct Hfin as [r Hr];
    exists r; split; [done | by apply round64_spec]].
  unfold round64. pose proof (Qred_correct q) as Hq.
  set (q' := Qred q) in *. rewrite Qnum_sign.
  assert (Hb' : (Qabs q' < 2 ^ 1022)%Q) by by rewrite Hq.
  assert (Hsmall : ¬ (q' == 0)%Q →
    Qle_bool (2 ^ 1024)
      (Qred (inject_Z (round_half_even (Qabs q' / 2 ^ ulp_exp q'))
             * 2 ^ ulp_exp q')) = false).
  { intros Hnz. set (e := ulp_exp q').
    set (m := round_half_even (Qabs q' / 2 ^ e)).
    destruct (Qle_bool _ _) eqn:E; [|done]. apply Qle_bool_iff in E.
    rewrite Qred_correct in E.
    pose proof (binade_ulp_exp q' Hnz) as He. fold e in He.
    pose proof (binade_unit q' e He) as Hu.
    pose proof (binary64_close (Qabs q') (inject_Z m * 2 ^ e) e m
                  (round_half_even_nearest _) ltac:(reflexivity)) as Hc.
    apply Qabs_Qle_condition in Hc. destruct Hc as [_ Hc].
    unfold Qdiv in Hc. change (/ 2)%Q with (1 # 2)%Q in Hc.
    assert (H1 : (1 <= 2 ^ 1022)%Q)
      by (change 1%Q with (2 ^ 0)%Q; by apply pow2_le).
    assert (H2 : (2 ^ 1024 == 4 * 2 ^ 1022)%Q).
    { change 1024%Z with (2 + 1022)%Z. rewrite pow2_plus. done. }
    set (A := Qabs q') in *. set (P := (2 ^ e)%Q) in *.
    set (B := (2 ^ 1022)%Q) in *. set (C := (2 ^ 1024)%Q) in *. lra. }
  destruct (Qsign q') eqn:Hs.
  - by eexists.
  - apply Qsign_Lt in Hs. rewrite Hsmall by lra. by eexists.
  - apply Qsign_Gt in Hs. rewrite Hsmall by lra. by eexists.
Qed.

Lemma binary64_nonneg x r : binary64_of x r → (0 <= x)%Q → (0 <= r)%Q.
Proof.
  intros (e & m & _ & Hm & Hr & _) Hx. pose proof (pow2_pos e).
  assert (Hm0 : (0 ≤ m)%Z).
  { apply (nearest_even_ge m (x / 2 ^ e)); [done|].
    apply Qle_shift_div_l; [done|]. change (inject_Z 0) with 0%Q. lra. }
  rewrite Hr. apply Qmult_le_0_compat; [by apply inject_Z_nonneg | lra].
Qed.

(** Rounding does not pass an integer below [2^53]. *)
Lemma binary64_le_Z x r N :
  binary64_of x r → (0 <= x)%Q → (x <= inject_Z N)%Q → (N < 2 ^ 53)%Z →
  (r <= inject_Z N)%Q.
Proof.
  intros (e & m & (He1 & He2 & He3) & Hm & Hr & _) Hx0 HxN HN.
  pose proof (pow2_pos e) as Hpe.
  assert (He : (e ≤ 0)%Z).
  { destruct He3 as [->|He3]; [done|].
    destruct (Z.le_gt_cases e 0) as [|Hgt]; [done|].
    assert ((2 ^ 53 <= 2 ^ (e + 52))%Q) by (apply pow2_le; lia).
    assert ((inject_Z N < 2 ^ 53)%Q).
    { rewrite <- pow2_inject by done. by rewrite <- Zlt_Qlt. }
    rewrite Qabs_pos in He3 by done. lra. }
  set (K := (N * 2 ^ (- e))%Z).
  assert (HK : (inject_Z K * 2 ^ e == inject_Z N)%Q).
  { unfold K. rewrite inject_Z_mult, pow2_inject by lia.
    rewrite <- Qmult_assoc, <- pow2_plus.
    replace (- e + e)%Z with 0%Z by lia. change (2 ^ 0)%Q with 1%Q. ring. }
  assert (HmK : (m ≤ K)%Z).
  { apply (nearest_even_le m (x / 2 ^ e)); [done|].
    apply Qle_shift_div_r; [done|]. by rewrite HK. }
  rewrite Hr, <- HK. apply Qmult_le_r; [done|]. by rewrite <- Zle_Qle.
Qed.


(** *** The digits of [format_1f] *)

Lemma format_1f_digits q :
  ∃ t,
    nearest_even t (Qabs q * 10)
    ∧ format_1f (Fin q)
      = (match Qsign q with Lt => "-" | _ => EmptyString end)
          +:+ pretty (t / 10)%Z +:+ "." +:+ pretty (t `mod` 10)%Z.
Proof.
  exists (tenths q). split; [apply round_half_even_nearest | done].
Qed.

End RoundingFacts.

(* ===================================================================== *)
(** ** Facts about the pandas layer *)
(* ===================================================================== *)

Module PandasFacts.

Import NumericFacts.

(** *** [pd.cut] on the playtime bins *)

Lemma cut_cell_spec x :
  cut_cell playtime_bins playtime_labels x =
    if in_bin (of_Z 0) (of_Z 10) x then Some "0-10h"
    else if in_bin (of_Z 10) (of_Z 50) x then Some "10-50h"
    else if in_bin (of_Z 50) (of_Z 100) x then Some "50-100h"
    else if in_bin (of_Z 100) PInf x then Some "100h+"
    else None.
Proof.
  destruct x as [[n d]| | |]; try reflexivity.
  unfold cut_cell, in_bin, playtime_bins, of_Z, searchsorted_left, isnan.
  unfold nlt, nle. rewrite !Qle_bool_inject.
  repeat (case Z.leb_spec; intros; try lia; try reflexivity).
Qed.

(** The four intervals are pairwise disjoint. *)
Lemma in_bin_disjoint x :
  (in_bin (of_Z 0) (of_Z 10) x = true → in_bin (of_Z 10) (of_Z 50) x = false)
  ∧ (in_bin (of_Z 0) (of_Z 10) x = true → in_bin (of_Z 50) (of_Z 100) x = false)
  ∧ (in_bin (of_Z 0) (of_Z 10) x = true → in_bin (of_Z 100) PInf x = false)
  ∧ (in_bin (of_Z 10) (of_Z 50) x = true → in_bin (of_Z 50) (of_Z 100) x = false)
  ∧ (in_bin (of_Z 10) (of_Z 50) x = true → in_bin (of_Z 100) PInf x = false)
  ∧ (in_bin (of_Z 50) (of_Z 100) x = true → in_bin (of_Z 100) PInf x = false).
Proof.
  destruct x as [[n d]| | |]; try (by repeat split).
  unfold in_bin, of_Z, nlt, nle. rewrite !Qle_bool_inject.
  repeat (case Z.leb_spec; intros; try lia); by repeat split.
Qed.

Lemma cut_cell_label x :
  (cut_cell playtime_bins playtime_labels x = Some "0-10h"
     ↔ in_bin (of_Z 0) (of_Z 10) x = true)
  ∧ (cut_cell playtime_bins playtime_labels x = Some "10-50h"
     ↔ in_bin (of_Z 10) (of_Z 50) x = true)
  ∧ (cut_cell playtime_bins playtime_labels x = Some "50-100h"
     ↔ in_bin (of_Z 50) (of_Z 100) x = true)
  ∧ (cut_cell playtime_bins playtime_labels x = Some "100h+"
     ↔ in_bin (of_Z 100) PInf x = true).
Proof.
  rewrite cut_cell_spec.
  destruct (in_bin_disjoint x) as (H1 & H2 & H3 & H4 & H5 & H6).
  destruct (in_bin (of_Z 0) (of_Z 10) x) eqn:E1;
    [rewrite ?H1, ?H2, ?H3 by done | clear H1 H2 H3];
    (destruct (in_bin (of_Z 10) (of_Z 50) x) eqn:E2;
      [rewrite ?H4, ?H5 by done | clear H4 H5]);
    (destruct (in_bin (of_Z 50) (of_Z 100) x) eqn:E3;
      [rewrite ?H6 by done | clear H6]);
    try destruct (in_bin (of_Z 100) PInf x) eqn:E4;
    repeat split; congruence.
Qed.

(** *** Counting *)

Lemma occurrences_fmap {A} (f : A → option string) lab (xs : list A) :
  occurrences String.eqb lab (notnull (f <$> xs))
  = length (filter (λ x, f x = Some lab) xs).
Proof.
  unfold occurrences, notnull.
  induction xs as [|x xs IH]; [done|].
  rewrite fmap_cons. simpl omap. rewrite (filter_cons _ x).
  destruct (f x) as [s|] eqn:E; simpl.
  - rewrite filter_cons. destruct (String.eqb_spec lab s) as [->|Hne].
    + rewrite ?decide_True by done. simpl. f_equal. exact IH.
    + rewrite ?decide_False by congruence. exact IH.
  - rewrite ?decide_False by done. exact IH.
Qed.

Lemma rows_within_filter lo hi (f : num → option string) lab xs :
  (∀ x, f x = Some lab ↔ in_bin lo hi x = true) →
  length (filter (λ x, f x = Some lab) xs) = rows_within lo hi xs.
Proof.
  intros H. unfold rows_within. f_equal. by apply list_filter_iff.
Qed.

(** The count of each label among the binned cells is the number of rows
    in the label's interval. *)
Lemma binned_occurrences xs :
  let binned := notnull (cut_cell playtime_bins playtime_labels <$> xs) in
  occurrences String.eqb "0-10h" binned = rows_within (of_Z 0) (of_Z 10) xs
  ∧ occurrences String.eqb "10-50h" binned
      = rows_within (of_Z 10) (of_Z 50) xs
  ∧ occurrences String.eqb "50-100h" binned
      = rows_within (of_Z 50) (of_Z 100) xs
  ∧ occurrences String.eqb "100h+" binned = rows_within (of_Z 100) PInf xs.
Proof.
  simpl. rewrite !occurrences_fmap.
  repeat split; apply rows_within_filter; intros x;
    destruct (cut_cell_label x) as (?&?&?&?); done.
Qed.

(** *** Dictionary lookup on a [value_counts] result *)

Lemma is_label_true lab k : is_label lab k = true ↔ k = SStr lab.
Proof.
  destruct k as [x|s]; simpl; [done|].
  rewrite String.eqb_eq. split; [by intros -> | by intros [= ->]].
Qed.

Lemma count_of_Some lab vc n :
  NoDup (vc.*1) → count_of lab vc = Some n ↔ (SStr lab, n) ∈ vc.
Proof.
  induction vc as [|[k m] vc IH]; simpl; intros Hnd.
  - split; [done | by intros ?%elem_of_nil].
  - apply NoDup_cons in Hnd as [Hk Hnd]. rewrite elem_of_cons.
    destruct (is_label lab k) eqn:E.
    + apply is_label_true in E as ->. split.
      * intros [= ->]. by left.
      * intros [[= ->]|Hin]; [done|]. destruct Hk.
        apply list_elem_of_fmap. by exists (SStr lab, n).
    + rewrite IH by done. split; [by right|].
      intros [[= <- <-]|?]; [|done].
      assert (is_label lab (SStr lab) = true) by by apply is_label_true.
      congruence.
Qed.

Lemma count_of_Permutation lab vc vc' :
  NoDup (vc.*1) → vc ≡ₚ vc' → count_of lab vc = count_of lab vc'.
Proof.
  intros Hnd Hp.
  assert (Hnd' : NoDup (vc'.*1)) by by rewrite <- Hp.
  destruct (count_of lab vc) as [n|] eqn:E.
  - symmetry. apply count_of_Some; [done|]. rewrite <- Hp.
    by apply count_of_Some.
  - destruct (count_of lab vc') as [n|] eqn:E'; [|done].
    apply count_of_Some in E'; [|done]. rewrite <- Hp in E'.
    apply count_of_Some in E'; [|done]. congruence.
Qed.

Lemma count_of_value_counts lab cats xs :
  NoDup cats →
  count_of lab (value_counts (Categorical cats xs))
  = if bool_decide (lab ∈ cats)
    then Some (occurrences String.eqb lab (notnull xs)) else None.
Proof.
  intros Hnd. unfold value_counts.
  set (f := λ c : string, (SStr c, occurrences String.eqb c (notnull xs))).
  assert (Hkeys : NoDup ((f <$> cats).*1)).
  { rewrite <- list_fmap_compose. apply NoDup_fmap_2; [|done].
    by intros ?? [= ->]. }
  rewrite <- (count_of_Permutation lab (f <$> cats)); [|done|].
  2: by rewrite merge_sort_Permutation.
  case_bool_decide as Hin.
  - apply count_of_Some; [done|]. apply list_elem_of_fmap. by exists lab.
  - destruct (count_of lab (f <$> cats)) as [n|] eqn:E; [|done].
    apply count_of_Some in E; [|done].
    apply list_elem_of_fmap in E as (c & [= <- _] & ?). done.
Qed.

(** *** Distinct values *)



Section uniques.
Context {A : Type} (eqb : A → A → bool).
Hypothesis eqb_trans :
  ∀ x y z, eqb x y = true → eqb y z = true → eqb x z = true.




End uniques.



(** *** Sum and mean of a numeric column *)

Lemma foldl_nadd_Fin qs a :
  ∃ s, foldl nadd (Fin a) (Fin <$> qs) = Fin s ∧ (s == a + Qsum qs)%Q.
Proof.
  revert a. induction qs as [|q qs IH]; intros a.
  - exists a. split; [done|]. simpl. ring.
  - destruct (IH (Qred (a + q))) as (s & Hfold & Hs). exists s.
    split; [exact Hfold|]. rewrite Hs, Qred_correct. simpl. ring.
Qed.

Lemma dropna_finite xs :
  Forall no_infinity xs → dropna xs = Fin <$> finite_cells xs.
Proof.
  unfold dropna, finite_cells.
  induction 1 as [|x xs [Hp Hn] _ IH]; [done|].
  rewrite filter_cons. destruct x; simpl; try done. by rewrite IH.
Qed.

(** On a column without infinities [sum] is the sum of the non-missing
    cells. *)
Lemma nansum_finite xs :
  Forall no_infinity xs →
  ∃ s, nansum xs = Fin s ∧ (s == Qsum (finite_cells xs))%Q.
Proof.
  intros Hfin. unfold nansum. rewrite dropna_finite by done.
  destruct (foldl_nadd_Fin (finite_cells xs) 0) as (s & -> & Hs).
  exists s. split; [done|]. by rewrite Hs, Qplus_0_l.
Qed.

(** *** Column assignment *)

Lemma setitem_index_len df c s : index_len (setitem df c s) = index_len df.
Proof. done. Qed.

Lemma setitem_lookup df c s : columns (setitem df c s) !! c = Some s.
Proof. apply lookup_insert_eq. Qed.

Lemma setitem_lookup_ne df c c' s :
  c ≠ c' → columns (setitem df c s) !! c' = columns df !! c'.
Proof. intros. by apply lookup_insert_ne. Qed.

Lemma has_column_setitem_ne df c c' s :
  c ≠ c' → has_column (setitem df c s) c' = has_column df c'.
Proof. intros. unfold has_column. by rewrite setitem_lookup_ne. Qed.

Lemma cut_series_len s bins labels s' :
  cut s bins labels = Returns s' → series_len s' = series_len s.
Proof.
  destruct s; simpl; intros [= <-]. simpl. by rewrite length_fmap.
Qed.

(** Assigning a series of the right length keeps a frame well formed. *)
Lemma setitem_well_formed df c s :
  well_formed df → series_len s = index_len df →
  well_formed (setitem df c s).
Proof.
  intros Hwf Hlen c' s'. simpl. rewrite lookup_insert.
  case_decide as Hc; [by intros [= <-]|]. apply Hwf.
Qed.




End PandasFacts.

(* ===================================================================== *)
(** ** Facts about exactly summed columns *)
(* ===================================================================== *)

Module ExactFacts.

Import NumericFacts RoundingFacts PandasFacts.

Lemma exactly_summable_no_infinity k xs :
  exactly_summable k xs → Forall no_infinity xs.
Proof.
  intros (_ & H & _). eapply Forall_impl; [exact H|].
  intros [q| | |]; simpl; try done; by intros _.
Qed.

Lemma dyadic_plus k a b : dyadic k a → dyadic k b → dyadic k (a + b).
Proof.
  intros [x Hx] [y Hy]. exists (x + y)%Z.
  rewrite Hx, Hy, inject_Z_plus. ring.
Qed.

Lemma dyadic_Qeq k a b : (a == b)%Q → dyadic k a → dyadic k b.
Proof. intros H [x Hx]. exists x. by rewrite <- H. Qed.

Lemma finite_cells_cons x xs :
  finite_cells (x :: xs)
  = match x with Fin q => q :: finite_cells xs | _ => finite_cells xs end.
Proof. by destruct x. Qed.

Lemma Qsum_dyadic k xs :
  exactly_summable k xs → dyadic k (Qsum (finite_cells xs)).
Proof.
  intros (_ & H & _). induction H as [|x xs Hx _ IH].
  - exists 0%Z. simpl. ring.
  - rewrite finite_cells_cons. destruct x as [q| | |]; try done.
    simpl. by apply dyadic_plus.
Qed.

Lemma Qsum_abs qs : (Qabs (Qsum qs) <= Qsum (Qabs <$> qs))%Q.
Proof.
  induction qs as [|q qs IH]; [done|].
  change (Qabs (q + Qsum qs) <= Qabs q + Qsum (Qabs <$> qs))%Q.
  eapply Qle_trans; [apply Qabs_triangle|]. lra.
Qed.

Lemma Qsum_nonneg qs : Forall (λ q, (0 <= q)%Q) qs → (0 <= Qsum qs)%Q.
Proof. induction 1 as [|q qs Hq _ IH]; simpl; [done | lra]. Qed.

Lemma Qsum_bound k xs :
  exactly_summable k xs → (Qabs (Qsum (finite_cells xs)) < 2 ^ 53)%Q.
Proof.
  intros (_ & _ & H & _).
  eapply Qle_lt_trans; [apply Qsum_abs|].
  eapply Qlt_le_trans; [exact H|]. apply pow2_le. lia.
Qed.

(** A dyadic number other than zero is at least one unit away from
    it. *)
Lemma dyadic_nonzero k q :
  dyadic k q → ¬ (q == 0)%Q → (2 ^ (- Z.of_nat k) <= Qabs q)%Q.
Proof.
  intros [z Hz] Hq. pose proof (pow2_pos (- Z.of_nat k)) as Hp.
  rewrite Hz, Qabs_Qmult, (Qabs_pos (2 ^ _)) by lra.
  assert (Hz0 : z ≠ 0%Z).
  { intros ->. apply Hq. rewrite Hz. ring. }
  assert (H1 : (1 <= Qabs (inject_Z z))%Q).
  { unfold Qle, Qabs, inject_Z. simpl. lia. }
  set (P := (2 ^ (- Z.of_nat k))%Q) in *.
  assert (1 * P <= Qabs (inject_Z z) * P)%Q by (apply Qmult_le_r; done).
  lra.
Qed.

(** The sentiment score of two columns of vote counts: the quotient of
    the sums and its product with 100, each rounded once. *)
Lemma sentiment_rounded hv tv :
  vote_counts hv → vote_counts tv → ¬ (Qsum (finite_cells tv) == 0)%Q →
  ∃ ratio pct,
    nmul (ndiv (nansum hv) (nansum tv)) (of_Z 100) = Fin pct
    ∧ binary64_of (Qsum (finite_cells hv) / Qsum (finite_cells tv)) ratio
    ∧ binary64_of (ratio * 100) pct
    ∧ (0 <= ratio)%Q ∧ (0 <= pct)%Q.
Proof.
  intros [Hh Hh0] [Ht Ht0] Hnz.
  destruct (nansum_finite hv (exactly_summable_no_infinity _ _ Hh))
    as (h & -> & Hhs).
  destruct (nansum_finite tv (exactly_summable_no_infinity _ _ Ht))
    as (t & -> & Hts).
  pose proof (Qsum_nonneg _ Hh0) as HH0. pose proof (Qsum_nonneg _ Ht0) as HT0.
  pose proof (Qsum_bound _ _ Hh) as HHb. rewrite Qabs_pos in HHb by done.
  pose proof (dyadic_nonzero 0 _ (Qsum_dyadic _ _ Ht) Hnz) as HT1.
  rewrite Qabs_pos in HT1 by done. change (2 ^ (- Z.of_nat 0))%Q with 1%Q in HT1.
  set (H := Qsum (finite_cells hv)) in *. set (T := Qsum (finite_cells tv)) in *.
  assert (Hq0 : (0 <= H / T)%Q) by (apply Qle_shift_div_l; lra).
  assert (HqH : (H / T <= H)%Q) by (apply Qle_shift_div_r; nra).
  assert (Hsign : Qsign t = Gt) by (apply Qsign_Gt; lra).
  unfold ndiv. rewrite Hsign.
  assert (Eq1 : (h / t == H / T)%Q) by by rewrite Hhs, Hts.
  rewrite (round64_Qeq _ _ Eq1).
  assert (P53 : (2 ^ 53 < 2 ^ 1000)%Q) by by apply pow2_lt.
  assert (P1000 : (2 ^ 1000 < 2 ^ 1022)%Q) by by apply pow2_lt.
  assert (P1000' : (1000 <= 2 ^ 53)%Q) by by vm_compute.
  destruct (round64_finite (H / T)) as (ratio & -> & Hr).
  { rewrite Qabs_pos by done. lra. }
  pose proof (binary64_nonneg _ _ Hr Hq0) as Hr0.
  pose proof (binary64_bound _ _ Hr) as Hrb.
  rewrite (Qabs_pos (H / T)), (Qabs_pos ratio) in Hrb by done.
  unfold nmul, of_Z.
  assert (P54 : (2 ^ 1000 == 2 ^ 53 * 2 ^ 947)%Q).
  { rewrite <- pow2_plus. done. }
  assert (P947 : (1000 <= 2 ^ 947)%Q).
  { eapply Qle_trans; [exact P1000'|]. by apply pow2_le. }
  pose proof (pow2_pos 53) as Hp53.
  destruct (round64_finite (ratio * inject_Z 100)) as (pct & -> & Hp).
  { rewrite Qabs_pos by (change (inject_Z 100) with 100%Q; lra).
    change (inject_Z 100) with 100%Q.
    set (A := (2 ^ 53)%Q) in *. set (B := (2 ^ 947)%Q) in *.
    set (C := (2 ^ 1000)%Q) in *. set (D := (2 ^ 1022)%Q) in *. nra. }
  exists ratio, pct. split_and!; [done|done|done|done|].
  apply (binary64_nonneg _ _ Hp). change (inject_Z 100) with 100%Q. lra.
Qed.


(** The text of a non-negative score. *)
Lemma format_1f_nonneg q :
  (0 <= q)%Q →
  ∃ t,
    nearest_even t (q * 10)
    ∧ format_1f (Fin q)
      = pretty (t / 10)%Z +:+ "." +:+ pretty (t `mod` 10)%Z.
Proof.
  intros Hq. destruct (format_1f_digits q) as (t & Ht & ->).
  exists t. split.
  - eapply nearest_even_Qeq; [|exact Ht].
    by rewrite Qabs_pos.
  - destruct (Qsign q) eqn:E; [done| |done].
    apply Qsign_Lt in E. lra.
Qed.



(** The sums of rows of votes. *)
Lemma votes_rows_sums hv tv :
  Forall2 votes_row hv tv →
  (0 <= Qsum (finite_cells hv))%Q
  ∧ (Qsum (finite_cells hv) <= Qsum (finite_cells tv))%Q.
Proof.
  induction 1 as [|h t hv tv Hrow _ (H0 & Hle)].
  - by split.
  - destruct h as [a| | |], t as [b| | |]; simpl in Hrow; try done.
    + destruct Hrow as [Ha Hab]. split; simpl in *; lra.
    + split; simpl in *; lra.
Qed.

(** Discharges [exactly_summable] and [vote_counts] on a given column. *)
Ltac exact_cell :=
  simpl;
  lazymatch goal with
  | |- dyadic ?k ?q =>
      let z := eval vm_compute in (Qnum (Qred (q * 2 ^ Z.of_nat k))) in
      exists z; by vm_compute
  | |- True => exact I
  end.

Ltac exact_column :=
  lazymatch goal with
  | |- vote_counts _ =>
      split; [exact_column | repeat (constructor; [by vm_compute|]); constructor]
  | |- exactly_summable _ _ =>
      split_and!;
        [ lia
        | repeat (constructor; [exact_cell|]); constructor
        | by vm_compute
        | by vm_compute ]
  end.

End ExactFacts.

(* ===================================================================== *)
(** ** Facts about thousands separators *)
(* ===================================================================== *)

Module GroupFacts.

(** *** Strings and their characters *)

Lemma append_cons c (s t : string) : String c s +:+ t = String c (s +:+ t).
Proof. reflexivity. Qed.

Lemma append_nil (t : string) : EmptyString +:+ t = t.
Proof. reflexivity. Qed.



Lemma string_app_assoc (s t u : string) : (s +:+ t) +:+ u = s +:+ (t +:+ u).
Proof.
  induction s as [|c s IH]; [done|]. rewrite !append_cons. by f_equal.
Qed.

(** *** The digits of a numeral *)










(** *** Grouping *)






End GroupFacts.

(* ===================================================================== *)
(** ** The script, fragment by fragment *)
(* ===================================================================== *)

Module ScriptFacts.

Import NumericFacts PandasFacts.

Ltac script_unfold :=
  unfold mbind, script_bind, mret, script_ret, gets, lift, raise,
    checkbox, button, emit, modify, compose in *.

Lemma has_column_Some df c s : columns df !! c = Some s → has_column df c = true.
Proof. unfold has_column. by intros ->. Qed.

Lemma has_column_None df c : columns df !! c = None → has_column df c = false.
Proof. unfold has_column. by intros ->. Qed.

Lemma getitem_Some df c s : columns df !! c = Some s → getitem df c = Returns s.
Proof. unfold getitem. by intros ->. Qed.


Lemma bucketed_same df df' : bucketed df df' → same_but_bucket df df'.
Proof.
  intros (xs & _ & ->). split; [done|]. intros c Hc.
  by apply setitem_lookup_ne.
Qed.

Lemma setitem_setitem df c s : setitem (setitem df c s) c s = setitem df c s.
Proof. unfold setitem. simpl. by rewrite insert_insert_eq. Qed.

Lemma bucketed_twice df df' df'' :
  bucketed df df' → bucketed df' df'' → bucketed df df''.
Proof.
  intros (xs & Hxs & ->) (xs' & Hxs' & ->).
  rewrite setitem_lookup_ne in Hxs' by done.
  assert (xs' = xs) as -> by congruence.
  exists xs. split; [done|]. by rewrite setitem_setitem.
Qed.

#[global] Instance reviews_step_refl : Reflexive reviews_step.
Proof. intros r. by left. Qed.

#[global] Instance reviews_step_trans : Transitive reviews_step.
Proof.
  intros r1 r2 r3 [->|(df & df' & -> & -> & H1)] [->|(dg & dg' & Hg & -> & H2)].
  - by left.
  - right. eauto.
  - right. eauto.
  - injection Hg as <-. right. exists df, dg'. eauto using bucketed_twice.
Qed.

#[global] Instance evolves_refl : Reflexive evolves.
Proof. intros w. split; try done; [by left | by exists []; rewrite app_nil_r]. Qed.

#[global] Instance evolves_trans : Transitive evolves.
Proof.
  intros w1 w2 w3 [Hs1 Hr1 Hc1 [e1 Hp1] Hg1 Hl1 Hv1]
    [Hs2 Hr2 Hc2 [e2 Hp2] Hg2 Hl2 Hv2].
  split.
  - congruence.
  - congruence.
  - destruct Hc2 as [-> | ->]; [done | by right].
  - exists (e1 ++ e2). by rewrite Hp2, Hp1, app_assoc.
  - congruence.
  - congruence.
  - by etrans.
Qed.

(** *** Rules *)

Section follows.
Context (R : relation World) `{!Reflexive R, !Transitive R}.

Lemma follows_ret {A} (a : A) : follows R (mret a).
Proof. intros w. simpl. reflexivity. Qed.

Lemma follows_bind {A B} (m : Script A) (k : A → Script B) :
  follows R m → (∀ a, follows R (k a)) → follows R (m ≫= k).
Proof.
  intros Hm Hk w. unfold mbind, script_bind.
  specialize (Hm w). destruct (m w) as [[a|e] w']; simpl in *; [|done].
  etrans; [done|]. apply Hk.
Qed.

Lemma follows_gets {A} (f : World → A) : follows R (gets f).
Proof. intros w. simpl. reflexivity. Qed.

Lemma follows_lift {A} (o : outcome A) : follows R (lift o).
Proof. intros w. simpl. reflexivity. Qed.

Lemma follows_raise {A} e : follows R (@raise A e).
Proof. intros w. simpl. reflexivity. Qed.

End follows.

Lemma evolves_emit el : follows evolves (emit el).
Proof. intros w. split; simpl; try done; [by left | by eexists]. Qed.

Lemma evolves_cache_clear : follows evolves cache_clear.
Proof.
  intros w. split; simpl; try done; [by right | by exists []; rewrite app_nil_r].
Qed.

Lemma evolves_bucket df xs :
  columns df !! "playtime_hours" = Some (Numeric xs) →
  ∀ w, reviews_df (locals w) = Some df →
    evolves w
      (modify (set_locals (λ l,
         mkLocals (games_df l)
           (Some (setitem df "playtime_bin" (bucket_column xs)))
           (logs_df l))) w).2.
Proof.
  intros Hxs w Hdf. split; simpl; try done.
  - by left.
  - by exists []; rewrite app_nil_r.
  - right. exists df, (setitem df "playtime_bin" (bucket_column xs)).
    split_and!; [done..|]. by exists xs.
Qed.

Ltac follows_step :=
  lazymatch goal with
  | |- follows _ (_ ≫= _) => apply follows_bind; [apply _ | | intros ?]
  | |- follows _ (mret _) => apply follows_ret; apply _
  | |- follows _ (gets _) => apply follows_gets; apply _
  | |- follows _ (lift _) => apply follows_lift; apply _
  | |- follows _ (raise _) => apply follows_raise; apply _
  | |- follows _ rerun => apply follows_raise; apply _
  | |- follows evolves (emit _) => apply evolves_emit
  | |- follows evolves cache_clear => apply evolves_cache_clear
  | |- follows _ (match ?x with _ => _ end) => destruct x
  | |- follows _ (let _ := _ in _) => cbv zeta
  end.

(** Fragments already shown to evolve the world are looked up by name. *)
Create HintDb evolves discriminated.

Ltac follows_auto :=
  repeat first [ follows_step | solve [auto with evolves nocore] ].

Lemma evolves_checkbox l v : follows evolves (checkbox l v).
Proof. unfold checkbox. repeat follows_step. Qed.

#[export] Hint Resolve evolves_checkbox : evolves.

Lemma evolves_button l v : follows evolves (button l v).
Proof. unfold button. repeat follows_step. Qed.

#[export] Hint Resolve evolves_button : evolves.

Lemma evolves_sidebar ui : follows evolves (sidebar ui).
Proof.
  unfold sidebar.
  follows_auto.
Qed.

#[export] Hint Resolve evolves_sidebar : evolves.

Lemma evolves_total_games : follows evolves total_games_metric.
Proof. unfold total_games_metric. repeat follows_step. Qed.

#[export] Hint Resolve evolves_total_games : evolves.

Lemma evolves_total_reviews : follows evolves total_reviews_metric.
Proof. unfold total_reviews_metric. repeat follows_step. Qed.

#[export] Hint Resolve evolves_total_reviews : evolves.

Lemma evolves_log_entries : follows evolves log_entries_metric.
Proof. unfold log_entries_metric. repeat follows_step. Qed.

#[export] Hint Resolve evolves_log_entries : evolves.

Lemma evolves_avg_playtime : follows evolves avg_playtime_metric.
Proof. unfold avg_playtime_metric. repeat follows_step. Qed.

#[export] Hint Resolve evolves_avg_playtime : evolves.

Lemma evolves_active_players : follows evolves active_players_metric.
Proof. unfold active_players_metric. repeat follows_step. Qed.

#[export] Hint Resolve evolves_active_players : evolves.

Lemma evolves_sentiment_score : follows evolves sentiment_score_metric.
Proof. unfold sentiment_score_metric. repeat follows_step. Qed.

#[export] Hint Resolve evolves_sentiment_score : evolves.


(** What [playtime_distribution] does on a numeric playtime column. *)
Lemma playtime_distribution_numeric w df xs :
  reviews_df (locals w) = Some df →
  columns df !! "playtime_hours" = Some (Numeric xs) →
  let dist := value_counts (bucket_column xs) in
  let fig :=
    update_traces (px_pie (dist.*2) (dist.*1) "Playtime Distribution")
      "inside" "percent+label" in
  playtime_distribution w
  = (Returns tt,
     set_page
       (λ p, p ++ [Markdown "**Player Playtime Distribution**";
                   PlotlyChart fig])
       (set_locals
          (λ l, mkLocals (games_df l)
                  (Some (setitem df "playtime_bin" (bucket_column xs)))
                  (logs_df l)) w)).
Proof.
  intros Hdf Hxs dist fig. unfold playtime_distribution. script_unfold.
  simpl. rewrite Hdf, (has_column_Some _ _ _ Hxs), (getitem_Some _ _ _ Hxs).
  simpl. rewrite (getitem_Some _ "playtime_bin" (bucket_column xs))
    by apply setitem_lookup.
  unfold set_page, set_locals. simpl. by rewrite <- app_assoc.
Qed.

Lemma playtime_distribution_placeholder w :
  present_with (reviews_df (locals w)) "playtime_hours" = false →
  playtime_distribution w
  = (Returns tt,
     set_page
       (λ p, p ++ [Markdown "**Player Playtime Distribution**";
                   Info "Playtime data not available"]) w).
Proof.
  intros Habs. unfold playtime_distribution. script_unfold. simpl.
  destruct (reviews_df (locals w)) as [df|]; simpl in *;
    rewrite ?Habs; unfold set_page; simpl; by rewrite <- app_assoc.
Qed.

Lemma evolves_playtime_distribution : follows evolves playtime_distribution.
Proof.
  intros w.
  destruct (reviews_df (locals w)) as [df|] eqn:Hdf.
  - destruct (columns df !! "playtime_hours") as [[xs|ts|cats cs]|] eqn:Hc.
    + rewrite (playtime_distribution_numeric w df xs) by done. simpl.
      split; simpl; try done; [by left | by eexists |].
      right. exists df, (setitem df "playtime_bin" (bucket_column xs)).
      split_and!; [done..|]. by exists xs.
    + unfold playtime_distribution. script_unfold. simpl.
      rewrite Hdf, (has_column_Some _ _ _ Hc), (getitem_Some _ _ _ Hc). simpl.
      split; simpl; try done; [by left | by eexists].
    + unfold playtime_distribution. script_unfold. simpl.
      rewrite Hdf, (has_column_Some _ _ _ Hc), (getitem_Some _ _ _ Hc). simpl.
      split; simpl; try done; [by left | by eexists].
    + rewrite playtime_distribution_placeholder.
      * split; simpl; try done; [by left | by eexists].
      * rewrite Hdf. simpl. by apply has_column_None.
  - rewrite playtime_distribution_placeholder by by rewrite Hdf.
    split; simpl; try done; [by left | by eexists].
Qed.

#[export] Hint Resolve evolves_playtime_distribution : evolves.

Lemma evolves_overview_metrics : follows evolves overview_metrics.
Proof.
  unfold overview_metrics.
  follows_auto.
Qed.

#[export] Hint Resolve evolves_overview_metrics : evolves.

Lemma evolves_player_analytics : follows evolves player_analytics.
Proof.
  unfold player_analytics.
  follows_auto.
Qed.

#[export] Hint Resolve evolves_player_analytics : evolves.

Lemma evolves_render ui : follows evolves (render ui).
Proof.
  unfold render.
  follows_auto.
Qed.

#[export] Hint Resolve evolves_render : evolves.

(** The counts of the pie figure built from a playtime column. *)
Lemma histogram_counts xs :
  let dist := value_counts (bucket_column xs) in
  let fig :=
    update_traces (px_pie (dist.*2) (dist.*1) "Playtime Distribution")
      "inside" "percent+label" in
  fig_names fig ≡ₚ SStr <$> playtime_labels
  ∧ slice fig "0-10h" = Some (rows_within (of_Z 0) (of_Z 10) xs)
  ∧ slice fig "10-50h" = Some (rows_within (of_Z 10) (of_Z 50) xs)
  ∧ slice fig "50-100h" = Some (rows_within (of_Z 50) (of_Z 100) xs)
  ∧ slice fig "100h+" = Some (rows_within (of_Z 100) PInf xs).
Proof.
  intros dist fig. unfold slice, fig. simpl. rewrite zip_fst_snd.
  assert (Hnd : NoDup playtime_labels).
  { by apply (bool_decide_unpack _). }
  destruct (binned_occurrences xs) as (H1 & H2 & H3 & H4).
  unfold dist, bucket_column. split.
  - unfold value_counts. rewrite merge_sort_Permutation.
    by rewrite <- list_fmap_compose.
  - rewrite !count_of_value_counts by done.
    rewrite <- H1, <- H2, <- H3, <- H4. done.
Qed.

End ScriptFacts.

(* ===================================================================== *)
(** ** The playtime histogram *)
(* ===================================================================== *)

Module Histogram.

Import NumericFacts PandasFacts ScriptFacts.




(** C6: playtime values 5, 15, 60, 150 give one row in each of the four
    bins. *)
Theorem playtime_histogram_example (w : World) (df : DataFrame) :
  reviews_df (locals w) = Some df →
  columns df !! "playtime_hours"
  = Some (Numeric (of_Z <$> [5; 15; 60; 150]%Z)) →
  ∃ fig,
    page (playtime_distribution w).2
    = page w ++ [Markdown "**Player Playtime Distribution**";
                 PlotlyChart fig]
    ∧ fig_names fig ≡ₚ SStr <$> ["0-10h"; "10-50h"; "50-100h"; "100h+"]
    ∧ slice fig "0-10h" = Some 1%nat
    ∧ slice fig "10-50h" = Some 1%nat
    ∧ slice fig "50-100h" = Some 1%nat
    ∧ slice fig "100h+" = Some 1%nat.
Proof.
  intros Hdf Hxs.
  rewrite (playtime_distribution_numeric w df _ Hdf Hxs).
  eexists. split; [done|].
  destruct (histogram_counts (of_Z <$> [5; 15; 60; 150]%Z))
    as (Hn & -> & -> & -> & ->).
  by split_and!.
Qed.

Lemma playtime_histogram_example_witness :
  shown_counts (page (playtime_distribution Samples.loaded).2) "100h+"
  = [Some 1%nat].
Proof.
  destruct (playtime_histogram_example Samples.loaded Samples.reviews
              eq_refl eq_refl) as (fig & -> & _ & _ & _ & _ & H).
  unfold shown_counts. simpl. by rewrite H.
Defined.

End Histogram.

(* ===================================================================== *)
(** ** The metrics *)
(* ===================================================================== *)

Module Metrics.
Import NumericFacts RoundingFacts PandasFacts ExactFacts GroupFacts
  ScriptFacts.

(** The sentiment score on numeric vote columns. *)
Lemma sentiment_score_numeric w df hv tv :
  reviews_df (locals w) = Some df →
  columns df !! "helpful_votes" = Some (Numeric hv) →
  columns df !! "total_votes" = Some (Numeric tv) →
  sentiment_score_metric w
  = emit (Metric "Sentiment Score"
            (format_1f (nmul (ndiv (nansum hv) (nansum tv)) (of_Z 100))
               +:+ "%")) w.
Proof.
  intros Hdf Hh Ht.
  unfold sentiment_score_metric. script_unfold. simpl. rewrite Hdf.
  rewrite (has_column_Some _ _ _ Hh), (has_column_Some _ _ _ Ht).
  simpl. by rewrite (getitem_Some _ _ _ Hh), (getitem_Some _ _ _ Ht).
Qed.












(** C4 (as amended): the row-count metrics.  When the games table is
    present and the refresh button was not clicked, the page gets the
    total-games, total-reviews and log-entries metrics with the row counts
    of their tables, 0 standing for an absent reviews or logs table,
    whatever happens later in the run; with only the games table present
    the run completes and the other elements are the placeholders.  When
    the games table is absent no metric is rendered: the run adds the
    files-not-found error and the required-files notice. *)
Theorem row_count_metrics (ui : Inputs) (w : World) :
  (∀ g,
     games_df (locals w) = Some g → refresh_clicked ui = false →
     ∃ post,
       page (render ui w).2
       = page w ++ before_metrics ui
           ++ [Metric "Total Games" (format_comma (len g));
               Metric "Total Reviews"
                 (format_comma (row_count (reviews_df (locals w))));
               Metric "Log Entries"
                 (format_comma (row_count (logs_df (locals w))))]
           ++ post)
  ∧ (∀ g,
       games_df (locals w) = Some g → refresh_clicked ui = false →
       reviews_df (locals w) = None → logs_df (locals w) = None →
       (render ui w).1 = Returns tt
       ∧ page (render ui w).2
         = page w ++ before_metrics ui
             ++ [Metric "Total Games" (format_comma (len g));
                 Metric "Total Reviews" "0";
                 Metric "Log Entries" "0";
                 Metric "Avg Playtime" "N/A";
                 Markdown "### 👥 Player Analytics";
                 Markdown "**Player Playtime Distribution**";
                 Info "Playtime data not available";
                 Metric "Active Players" "N/A";
                 Metric "Sentiment Score" "N/A"])
  ∧ (games_df (locals w) = None →
     render ui w
     = (Returns tt,
        set_page (λ p, p ++ [Error files_not_found; Info required_files]) w)).
Proof.
  split_and!.
  - intros g Hg Hclick.
    unfold render, sidebar, overview_metrics, total_games_metric,
      total_reviews_metric, log_entries_metric.
    script_unfold. simpl. rewrite Hg, Hclick. simpl. rewrite Hg.
    match goal with
    | |- context [avg_playtime_metric ?W] => set (w3 := W)
    end.
    assert (Hp3 : page w3
      = page w ++ before_metrics ui
          ++ [Metric "Total Games" (format_comma (len g));
              Metric "Total Reviews"
                (format_comma (row_count (reviews_df (locals w))));
              Metric "Log Entries"
                (format_comma (row_count (logs_df (locals w))))]).
    { subst w3. unfold before_metrics. simpl. by rewrite <- !app_assoc. }
    destruct (ev_page _ _ (evolves_avg_playtime w3)) as [els1 H1].
    destruct (avg_playtime_metric w3) as [[[]|e] w4]; cbn [fst snd] in *.
    + destruct (ev_page _ _ (evolves_player_analytics w4)) as [els2 H2].
      exists (els1 ++ els2).
      rewrite H2, H1, Hp3. by rewrite <- !app_assoc.
    + exists els1. rewrite H1, Hp3. by rewrite <- !app_assoc.
  - intros g Hg Hclick Hr Hl.
    unfold render, sidebar, overview_metrics, total_games_metric,
      total_reviews_metric, log_entries_metric, avg_playtime_metric,
      player_analytics, playtime_distribution, active_players_metric,
      sentiment_score_metric.
    script_unfold. simpl. rewrite Hg, Hclick.
    repeat (progress (rewrite ?Hg, ?Hr, ?Hl; simpl)).
    split; [done|]. unfold before_metrics. by rewrite <- !app_assoc.
  - intros Hg. unfold render. script_unfold. simpl. rewrite Hg.
    unfold set_page. simpl. by rewrite <- app_assoc.
Qed.

Lemma row_count_metrics_witness :
  refresh_clicked Samples.idle = false
  ∧ ∃ post,
      page (render Samples.idle Samples.loaded).2
      = page Samples.loaded ++ before_metrics Samples.idle
          ++ [Metric "Total Games" "1,234";
              Metric "Total Reviews" "4";
              Metric "Log Entries" "4"]
          ++ post.
Proof.
  split; [reflexivity|].
  destruct (row_count_metrics Samples.idle Samples.loaded) as [H _].
  exact (H Samples.games eq_refl eq_refl).
Defined.

(** C4 as stated fails: after a failed load all three tables are absent
    and the page shows no row-count metric at all, not metrics reading 0;
    it shows the load error, the files-not-found error and the
    required-files notice. *)
Lemma row_count_metrics_absent_counterexample :
  locals (run Samples.idle Samples.fresh_empty) = Samples.no_locals
  ∧ metric_values (page (run Samples.idle Samples.fresh_empty)) "Total Games"
    = []
  ∧ metric_values (page (run Samples.idle Samples.fresh_empty))
      "Total Reviews" = []
  ∧ metric_values (page (run Samples.idle Samples.fresh_empty)) "Log Entries"
    = []
  ∧ drop 2 (page (run Samples.idle Samples.fresh_empty))
    = [load_error "No such file or directory";
       Error files_not_found;
       Info required_files]
  ∧ metric_values (page (run Samples.idle Samples.fresh_empty)) "Total Games"
    ≠ [format_comma (row_count (games_df Samples.no_locals))].
Proof. by vm_compute. Qed.

End Metrics.

(* ===================================================================== *)
(** ** Frame of a render pass *)
(* ===================================================================== *)

Module Frame.

Import PandasFacts ScriptFacts.

Lemma same_but_bucket_refl df : same_but_bucket df df.
Proof. by split. Qed.

Lemma reviews_step_same r r' :
  reviews_step r r' → option_Forall2 same_but_bucket r r'.
Proof.
  intros [->|(df & df' & -> & -> & Hb)].
  - destruct r; constructor. apply same_but_bucket_refl.
  - constructor. by apply bucketed_same.
Qed.

(** C9: what a render pass does to the tables.  The games and logs tables
    are left as they were.  The reviews table is left as it was or has
    the bucket column derived from its playtime column assigned under
    [playtime_bin]; either way its index and every column under another
    name are as before.  The tables held by the data cache are not
    altered: the cached entry is the same, or has been dropped as a
    whole by the refresh button. *)
Theorem render_frame (ui : Inputs) (w : World) :
  let w' := (render ui w).2 in
  games_df (locals w') = games_df (locals w)
  ∧ logs_df (locals w') = logs_df (locals w)
  ∧ reviews_step (reviews_df (locals w)) (reviews_df (locals w'))
  ∧ option_Forall2 same_but_bucket
      (reviews_df (locals w)) (reviews_df (locals w'))
  ∧ (cache w' = cache w ∨ cache w' = None).
Proof.
  destruct (evolves_render ui w) as [_ _ Hc _ Hg Hl Hr].
  split_and!; [done..| |done]. by apply reviews_step_same.
Qed.

(** On the sample tables the pass adds the bucket column and nothing
    else. *)
Example render_frame_sample :
  let w' := (render Samples.idle Samples.loaded).2 in
  games_df (locals w') = Some Samples.games
  ∧ logs_df (locals w') = Some Samples.logs
  ∧ reviews_df (locals w')
    = Some (setitem Samples.reviews "playtime_bin"
              (bucket_column (of_Z <$> [5; 15; 60; 150]%Z))).
Proof. by vm_compute. Qed.

End Frame.

(* ===================================================================== *)
(** ** The data loader *)
(* ===================================================================== *)

Module Loader.

Import ScriptFacts.

(** The undecorated body: the three tables when every file is readable,
    otherwise three absent values and one error element carrying the
    message of the first failure. *)
Lemma load_data_body_spec w :
  match first_failure w with
  | None =>
      ∃ g r l,
        storage w games_path = Parquet g
        ∧ storage w reviews_path = Parquet r
        ∧ storage w logs_path = Parquet l
        ∧ (load_data_body w).1 = Returns (Some g, Some r, Some l)
        ∧ page (load_data_body w).2 = page w
  | Some msg =>
      (load_data_body w).1 = Returns (None, None, None)
      ∧ page (load_data_body w).2 = page w ++ [load_error msg]
  end
  ∧ cache (load_data_body w).2 = cache w.
Proof.
  unfold first_failure, load_data_body, try_except, read_parquet.
  script_unfold. simpl.
  destruct (storage w games_path) as [g|c1 m1]; simpl; [|done].
  destruct (storage w reviews_path) as [r|c2 m2]; simpl; [|done].
  destruct (storage w logs_path) as [l|c3 m3]; simpl; [|done].
  split; [|done]. by exists g, r, l.
Qed.

Lemma load_data_body_returns w : ∃ v, (load_data_body w).1 = Returns v.
Proof.
  destruct (load_data_body_spec w) as [H _].
  destruct (first_failure w).
  - destruct H as [H _]. eauto.
  - destruct H as (g & r & l & _ & _ & _ & H & _). eauto.
Qed.

(** A hit returns the stored value and replays the stored elements;
    nothing is read and the entry stays. *)
Lemma load_data_hit w v rep :
  cache w = Some (v, rep) →
  load_data w = (Returns v, set_page (λ p, p ++ rep) w).
Proof. intros H. unfold load_data, cache_data. by rewrite H. Qed.

(** A miss runs the body and stores what it returned and emitted. *)
Lemma load_data_miss w :
  cache w = None →
  ∃ v,
    (load_data_body w).1 = Returns v
    ∧ (load_data w).1 = Returns v
    ∧ page (load_data w).2 = page (load_data_body w).2
    ∧ cache (load_data w).2
      = Some (v, drop (length (page w)) (page (load_data_body w).2)).
Proof.
  intros H. destruct (load_data_body_returns w) as [v Hv].
  exists v. unfold load_data, cache_data. rewrite H.
  destruct (load_data_body w) as [[v'|e] w']; simpl in *; [|done].
  by injection Hv as ->.
Qed.

(** After an invocation the cache holds the value that was returned. *)
Lemma load_data_caches w :
  ∃ v rep, (load_data w).1 = Returns v ∧ cache (load_data w).2 = Some (v, rep).
Proof.
  destruct (cache w) as [[v rep]|] eqn:Hc.
  - exists v, rep. by rewrite (load_data_hit w v rep).
  - destruct (load_data_miss w Hc) as (v & _ & Hv & _ & Hcache). eauto.
Qed.

(** Every entry the loader stores is one the body can produce. *)
Lemma load_data_consistent w :
  cache_consistent w → cache_consistent (load_data w).2.
Proof.
  unfold cache_consistent. destruct (cache w) as [[v rep]|] eqn:Hc.
  - rewrite (load_data_hit w v rep) by done. simpl. by rewrite Hc.
  - intros _. destruct (load_data_miss w Hc) as (v & Hb & _ & _ & ->).
    destruct (load_data_body_spec w) as [H _].
    destruct (first_failure w) as [msg|].
    + destruct H as [H1 H2]. right. simpl. rewrite H2, drop_app_length.
      split; [congruence | by exists msg].
    + destruct H as (g & r & l & _ & _ & _ & H1 & H2). left. simpl.
      rewrite H2, drop_all. split; [|done]. exists g, r, l. congruence.
Qed.

(** The rendering code keeps the cache consistent: it leaves the entry or
    drops it. *)
Lemma render_consistent ui w :
  cache_consistent w → cache_consistent (render ui w).2.
Proof.
  unfold cache_consistent.
  destruct (ev_cache _ _ (evolves_render ui w)) as [-> | ->]; done.
Qed.

Lemma main_consistent ui w :
  cache_consistent w → cache_consistent (main ui w).2.
Proof.
  intros Hw. unfold main, bind_locals. script_unfold. simpl.
  match goal with |- context [load_data ?W] => set (w1 := W) end.
  assert (H1 : cache_consistent w1) by done.
  apply load_data_consistent in H1.
  destruct (load_data w1) as [[v|e] w2]; simpl in *; [|done].
  by apply render_consistent.
Qed.

(** Every world reached from a consistent one by user interactions is
    consistent. *)
Lemma run_consistent ui w : cache_consistent w → cache_consistent (run ui w).
Proof.
  intros Hw. unfold run.
  assert (H1 : cache_consistent (main ui (new_run w)).2)
    by by apply main_consistent.
  destruct (main ui (new_run w)) as [[[]|[cls msg|]] w1]; simpl in *;
    try done.
  assert (H2 : cache_consistent (main (unclicked ui) (new_run w1)).2)
    by by apply main_consistent.
  destruct (main (unclicked ui) (new_run w1)) as [[[]|[cls msg|]] w2];
    simpl in *; done.
Qed.

(** C3: the loader never raises.  Every invocation returns; with a cache
    entry of the kind the loader stores (or none), it returns either
    three tables and shows nothing, or three absent values and shows
    exactly one error message; on a cache miss the first case is that of
    three readable files and the message is that of the first failure. *)
Theorem load_data_total (w : World) :
  ∃ v,
    (load_data w).1 = Returns v
    ∧ (cache_consistent w →
       (all_present v ∧ page (load_data w).2 = page w)
       ∨ (all_absent v
          ∧ ∃ msg, page (load_data w).2 = page w ++ [load_error msg]))
    ∧ (cache w = None →
       match first_failure w with
       | None =>
           ∃ g r l,
             storage w games_path = Parquet g
             ∧ storage w reviews_path = Parquet r
             ∧ storage w logs_path = Parquet l
             ∧ v = (Some g, Some r, Some l)
             ∧ page (load_data w).2 = page w
       | Some msg =>
           v = (None, None, None)
           ∧ page (load_data w).2 = page w ++ [load_error msg]
       end).
Proof.
  destruct (cache w) as [[v rep]|] eqn:Hc.
  - exists v. rewrite (load_data_hit w v rep) by done. simpl.
    split_and!; [done| |done].
    unfold cache_consistent, entry_consistent. rewrite Hc. simpl.
    intros [[Hv ->]|[Hv [msg ->]]].
    + left. by rewrite app_nil_r.
    + right. eauto.
  - destruct (load_data_miss w Hc) as (v & Hb & Hv & Hp & _).
    exists v. rewrite Hp.
    destruct (load_data_body_spec w) as [H _].
    destruct (first_failure w) as [msg|].
    + destruct H as [H1 H2]. assert (v = (None, None, None)) by congruence.
      split_and!; [done| |done]. intros _. right. eauto.
    + destruct H as (g & r & l & Hg & Hr & Hl & H1 & H2).
      assert (v = (Some g, Some r, Some l)) by congruence.
      split_and!; [done| |].
      * intros _. left. split; [|done]. by exists g, r, l.
      * intros _. by exists g, r, l.
Qed.

Lemma load_data_total_witness :
  cache_consistent Samples.fresh_empty
  ∧ cache Samples.fresh_empty = None
  ∧ ∃ v,
      (load_data Samples.fresh_empty).1 = Returns v
      ∧ v = (None, None, None)
      ∧ page (load_data Samples.fresh_empty).2
        = [load_error "No such file or directory"].
Proof.
  split; [exact I|]. split; [reflexivity|].
  destruct (load_data_total Samples.fresh_empty) as (v & Hv & _ & H).
  destruct (H eq_refl) as [-> Hp]. by exists (None, None, None).
Defined.

(** With an entry in the cache, invocations and changes of the files do
    not read and all return the stored value. *)
Lemma replay_cached acts w v rep :
  cache w = Some (v, rep) →
  Forall (λ a, is_clear a = false) acts →
  Forall (λ r, r = Returns v) (replay acts w).1
  ∧ length (replay acts w).1 = length (filter (λ a, is_invoke a = true) acts)
  ∧ reads (replay acts w).2 = reads w.
Proof.
  intros Hc Hacts. revert w Hc.
  induction Hacts as [|a acts Ha _ IH]; intros w Hc; [done|].
  destruct a as [| |fs]; [|done|]; rewrite filter_cons; cbn [is_invoke].
  - rewrite decide_True by done. cbn [replay].
    rewrite (load_data_hit w v rep) by done.
    destruct (IH (set_page (λ p, p ++ rep) w) Hc) as (H1 & H2 & H3).
    destruct (replay acts (set_page (λ p, p ++ rep) w)) as [rs w'] eqn:E.
    simpl in *. split_and!; [by constructor | by f_equal | done].
  - rewrite decide_False by done. cbn [replay].
    by apply (IH (set_storage fs w)).
Qed.

(** C8: repeated invocations without a cache clear.  After a first
    invocation, every later invocation returns the value the first one
    returned, whatever happens to the files in between, and storage is
    not read again. *)
Theorem load_data_idempotent (acts : list action) (w : World) :
  Forall (λ a, is_clear a = false) acts →
  ∃ v,
    (load_data w).1 = Returns v
    ∧ Forall (λ r, r = Returns v) (replay acts (load_data w).2).1
    ∧ length (replay acts (load_data w).2).1
      = length (filter (λ a, is_invoke a = true) acts)
    ∧ reads (replay acts (load_data w).2).2 = reads (load_data w).2.
Proof.
  intros Hacts. destruct (load_data_caches w) as (v & rep & Hv & Hc).
  exists v. split; [done|]. by apply (replay_cached acts _ v rep).
Qed.

Lemma load_data_idempotent_witness :
  Forall (λ a, is_clear a = false)
    [Invoke; Rewrite Samples.empty_disk; Invoke]
  ∧ ∃ v,
      (load_data Samples.fresh).1 = Returns v
      ∧ (replay [Invoke; Rewrite Samples.empty_disk; Invoke]
           (load_data Samples.fresh).2).1
        = [Returns v; Returns v]
      ∧ reads (replay [Invoke; Rewrite Samples.empty_disk; Invoke]
                 (load_data Samples.fresh).2).2
        = [games_path; reviews_path; logs_path].
Proof.
  assert (Hacts : Forall (λ a, is_clear a = false)
                    [Invoke; Rewrite Samples.empty_disk; Invoke]).
  { by repeat constructor. }
  split; [exact Hacts|].
  destruct (load_data_idempotent _ Samples.fresh Hacts)
    as (v & Hv & Hall & Hlen & Hreads).
  exists v. split; [done|]. split; [|by rewrite Hreads].
  destruct (replay _ _).1 as [|r1 [|r2 [|r3 rs]]]; try done.
  apply Forall_cons in Hall as [-> Hall].
  apply Forall_cons in Hall as [-> _]. done.
Defined.

(** A cache clear in between does make the loader read again. *)
Example clear_reloads :
  (replay [Invoke; Rewrite Samples.empty_disk; Clear; Invoke]
     Samples.fresh).1
  = [Returns (Some Samples.games, Some Samples.reviews, Some Samples.logs);
     Returns (None, None, None)].
Proof. by vm_compute. Qed.

End Loader.

(* ===================================================================== *)
(** ** Runs: cache, storage and the refresh button *)
(* ===================================================================== *)

Module RunFacts.

Import NumericFacts PandasFacts ScriptFacts Loader.

(** *** Calm pieces of script *)

Lemma quiet_refl w : quiet w w.
Proof. by split_and!. Qed.

Lemma quiet_trans w1 w2 w3 : quiet w1 w2 → quiet w2 w3 → quiet w1 w3.
Proof. intros (? & ? & ?) (? & ? & ?). split_and!; congruence. Qed.

Lemma calm_ret {A} (a : A) : calm (mret a).
Proof. intros w. split; [apply quiet_refl | done]. Qed.

Lemma calm_bind {A B} (m : Script A) (k : A → Script B) :
  calm m → (∀ a, calm (k a)) → calm (m ≫= k).
Proof.
  intros Hm Hk w. unfold mbind, script_bind.
  destruct (Hm w) as [Hq Hr]. destruct (m w) as [[a|e] w']; simpl in *.
  - destruct (Hk a w') as [Hq' Hr']. split; [by eapply quiet_trans | done].
  - split; [done|]. intros [= ->]. by apply Hr.
Qed.

Lemma calm_gets {A} (f : World → A) : calm (gets f).
Proof. intros w. split; [apply quiet_refl | done]. Qed.

Lemma calm_lift {A} (o : outcome A) :
  o ≠ Raises RerunException → calm (lift o).
Proof. intros Ho w. split; [apply quiet_refl | done]. Qed.

Lemma calm_emit el : calm (emit el).
Proof. intros w. by split. Qed.

Lemma calm_set_locals f : calm (modify (set_locals f)).
Proof. intros w. by split. Qed.

Lemma getitem_not_rerun df c : getitem df c ≠ Raises RerunException.
Proof. unfold getitem. by destruct (columns df !! c). Qed.

Lemma mean_not_rerun s : mean s ≠ Raises RerunException.
Proof. by destruct s. Qed.

Lemma sum_not_rerun s : sum s ≠ Raises RerunException.
Proof. by destruct s. Qed.

Lemma cut_not_rerun s bins labels : cut s bins labels ≠ Raises RerunException.
Proof. by destruct s. Qed.

Create HintDb calm discriminated.

#[export] Hint Resolve getitem_not_rerun mean_not_rerun sum_not_rerun
  cut_not_rerun : calm.

Ltac calm_step :=
  lazymatch goal with
  | |- calm (_ ≫= _) => apply calm_bind; [| intros ?]
  | |- calm (mret _) => apply calm_ret
  | |- calm (gets _) => apply calm_gets
  | |- calm (lift _) => apply calm_lift; solve [auto with calm nocore]
  | |- calm (emit _) => apply calm_emit
  | |- calm (modify (set_locals _)) => apply calm_set_locals
  | |- calm (match ?x with _ => _ end) => destruct x
  | |- calm (let _ := _ in _) => cbv zeta
  end.

Ltac calm_auto :=
  repeat first [ calm_step | solve [auto with calm nocore] ].

Lemma calm_total_games : calm total_games_metric.
Proof. unfold total_games_metric. calm_auto. Qed.

Lemma calm_total_reviews : calm total_reviews_metric.
Proof. unfold total_reviews_metric. calm_auto. Qed.

Lemma calm_log_entries : calm log_entries_metric.
Proof. unfold log_entries_metric. calm_auto. Qed.

Lemma calm_avg_playtime : calm avg_playtime_metric.
Proof. unfold avg_playtime_metric. calm_auto. Qed.

Lemma calm_playtime_distribution : calm playtime_distribution.
Proof. unfold playtime_distribution. calm_auto. Qed.

Lemma calm_active_players : calm active_players_metric.
Proof. unfold active_players_metric. calm_auto. Qed.

Lemma calm_sentiment_score : calm sentiment_score_metric.
Proof. unfold sentiment_score_metric. calm_auto. Qed.

#[export] Hint Resolve calm_total_games calm_total_reviews calm_log_entries
  calm_avg_playtime calm_playtime_distribution calm_active_players
  calm_sentiment_score : calm.

Lemma calm_overview_metrics : calm overview_metrics.
Proof. unfold overview_metrics. calm_auto. Qed.

Lemma calm_player_analytics : calm player_analytics.
Proof. unfold player_analytics. calm_auto. Qed.

#[export] Hint Resolve calm_overview_metrics calm_player_analytics : calm.

(** The sidebar of a run in which the button was not clicked. *)
Lemma sidebar_unclicked ui w :
  refresh_clicked ui = false →
  sidebar ui w
  = (Returns tt,
     set_page
       (λ p, p ++ [Markdown "### 📊 System Status";
                   Success "Analytics API: Online";
                   Checkbox "Auto Refresh (30s)";
                   Button "🔄 Refresh Now";
                   Markdown ("**Last Updated:** " +:+ clock ui)]) w).
Proof.
  intros Hc. unfold sidebar. script_unfold. simpl. rewrite Hc.
  unfold set_page. simpl. by rewrite <- !app_assoc.
Qed.

(** The sidebar of a run in which the button was clicked: the cache is
    emptied and the run is abandoned after the button. *)
Lemma sidebar_clicked ui w :
  refresh_clicked ui = true →
  sidebar ui w
  = (Raises RerunException,
     set_cache None
       (set_page
          (λ p, p ++ [Markdown "### 📊 System Status";
                      Success "Analytics API: Online";
                      Checkbox "Auto Refresh (30s)";
                      Button "🔄 Refresh Now"]) w)).
Proof.
  intros Hc. unfold sidebar. script_unfold. simpl. rewrite Hc.
  unfold set_page, set_cache. simpl. by rewrite <- !app_assoc.
Qed.

Lemma render_cases ui w :
  render ui w
  = match games_df (locals w) with
    | Some _ =>
        (sidebar ui ≫= λ _, overview_metrics ≫= λ _, player_analytics) w
    | None =>
        (emit (Error files_not_found) ≫= λ _, emit (Info required_files)) w
    end.
Proof. unfold render. script_unfold. simpl. by destruct (games_df _). Qed.

Lemma bind_returns {A B} (m : Script A) (k : A → Script B) w a w' :
  m w = (Returns a, w') → (m ≫= k) w = k a w'.
Proof. intros H. unfold mbind, script_bind. by rewrite H. Qed.

Lemma bind_raises {A B} (m : Script A) (k : A → Script B) w e w' :
  m w = (Raises e, w') → (m ≫= k) w = (Raises e, w').
Proof. intros H. unfold mbind, script_bind. by rewrite H. Qed.

Lemma calm_render ui : refresh_clicked ui = false → calm (render ui).
Proof.
  intros Hc w. rewrite render_cases.
  destruct (games_df (locals w)).
  - rewrite (bind_returns _ _ _ _ _ (sidebar_unclicked ui w Hc)).
    assert (Hrest : calm (overview_metrics ≫= λ _, player_analytics))
      by calm_auto.
    match goal with |- context [set_page ?f w] =>
      destruct (Hrest (set_page f w)) as [Hq Hr] end.
    split; [|exact Hr]. eapply quiet_trans; [|exact Hq]. by split_and!.
  - assert (Hrest : calm (emit (Error files_not_found) ≫= λ _,
                            emit (Info required_files))) by calm_auto.
    apply Hrest.
Qed.

(** *** The loader and the locals *)

Lemma load_data_body_reads w :
  reads (load_data_body w).2 = reads w ++ paths_read w
  ∧ storage (load_data_body w).2 = storage w
  ∧ locals (load_data_body w).2 = locals w.
Proof.
  unfold paths_read, load_data_body, try_except, read_parquet.
  script_unfold. simpl.
  destruct (storage w games_path) as [g|c1 m1]; simpl; [|done].
  destruct (storage w reviews_path) as [r|c2 m2]; simpl;
    [|by rewrite <- app_assoc].
  destruct (storage w logs_path) as [l|c3 m3]; simpl;
    by rewrite <- !app_assoc.
Qed.

Lemma load_data_body_set_locals f w :
  load_data_body (set_locals f w)
  = ((load_data_body w).1, set_locals f (load_data_body w).2).
Proof.
  unfold load_data_body, try_except, read_parquet.
  script_unfold. simpl.
  destruct (storage w games_path) as [g|c1 m1]; simpl; [|done].
  destruct (storage w reviews_path) as [r|c2 m2]; simpl; [|done].
  destruct (storage w logs_path) as [l|c3 m3]; simpl; done.
Qed.

Lemma load_data_set_locals f w :
  load_data (set_locals f w)
  = ((load_data w).1, set_locals f (load_data w).2).
Proof.
  unfold load_data, cache_data. simpl.
  destruct (cache w) as [[v rep]|]; [done|].
  rewrite load_data_body_set_locals.
  destruct (load_data_body w) as [[v|e] w']; done.
Qed.


(** *** [main] as a loader call followed by the rendering code *)

Lemma main_cases ui w :
  ∃ v,
    (load_data (greeted w)).1 = Returns v
    ∧ main ui w = render ui (bound v (load_data (greeted w)).2).
Proof.
  destruct (load_data_caches (greeted w)) as (v & rep & Hv & _).
  exists v. split; [done|].
  unfold main, bind_locals. script_unfold. simpl.
  fold (greeted w). destruct (load_data (greeted w)) as [[v'|e] w'];
    simpl in *; [|done]. by injection Hv as ->.
Qed.

(** [main] binds its locals before it reads them. *)
Lemma main_set_locals ui f w : main ui (set_locals f w) = main ui w.
Proof.
  destruct (main_cases ui (set_locals f w)) as (v & Hv & ->).
  destruct (main_cases ui w) as (v' & Hv' & ->).
  change (greeted (set_locals f w)) with (set_locals f (greeted w)) in *.
  rewrite load_data_set_locals in *. simpl in *.
  assert (v' = v) as -> by congruence. done.
Qed.

Lemma finish_quiet r : quiet r.2 (finish r).
Proof. destruct r as [[[]|[cls msg|]] w]; by split_and!. Qed.

Lemma run_no_rerun ui w :
  (main ui (new_run w)).1 ≠ Raises RerunException →
  run ui w = finish (main ui (new_run w)).
Proof.
  intros H. unfold run.
  destruct (main ui (new_run w)) as [[[]|[cls msg|]] w']; done.
Qed.

Lemma main_unclicked_no_rerun ui w :
  refresh_clicked ui = false → (main ui w).1 ≠ Raises RerunException.
Proof.
  intros Hc. destruct (main_cases ui w) as (v & _ & ->).
  apply (calm_render ui Hc).
Qed.


(** *** What a run does to storage and cache *)

Lemma load_data_miss_world w :
  cache w = None →
  storage (load_data w).2 = storage w
  ∧ reads (load_data w).2 = reads w ++ paths_read w
  ∧ locals (load_data w).2 = locals w.
Proof.
  intros Hc. unfold load_data, cache_data. rewrite Hc.
  destruct (load_data_body_reads w) as (Hr & Hs & Hl).
  destruct (load_data_body w) as [[v|e] w']; done.
Qed.

Lemma run_hit_quiet ui w e :
  cache w = Some e → refresh_clicked ui = false → quiet w (run ui w).
Proof.
  intros He Hc. rewrite run_no_rerun by by apply main_unclicked_no_rerun.
  eapply quiet_trans; [|apply finish_quiet].
  destruct (main_cases ui (new_run w)) as (v & _ & ->).
  destruct e as [v0 rep].
  rewrite (load_data_hit (greeted (new_run w)) v0 rep) by done.
  eapply quiet_trans; [|by apply calm_render]. by split_and!.
Qed.

Lemma run_miss ui w :
  cache w = None → refresh_clicked ui = false →
  storage (run ui w) = storage w
  ∧ reads (run ui w) = reads w ++ paths_read w
  ∧ is_Some (cache (run ui w)).
Proof.
  intros Hn Hc. rewrite run_no_rerun by by apply main_unclicked_no_rerun.
  destruct (finish_quiet (main ui (new_run w))) as (-> & -> & ->).
  destruct (main_cases ui (new_run w)) as (v & _ & ->).
  destruct (calm_render ui Hc (bound v (load_data (greeted (new_run w))).2))
    as [(-> & -> & ->) _].
  destruct (load_data_miss_world (greeted (new_run w)) Hn) as (Hs & Hr & _).
  destruct (load_data_caches (greeted (new_run w))) as (v' & rep & _ & Hcache).
  simpl. rewrite Hs, Hr, Hcache. by split_and!.
Qed.

Lemma session_quiet steps w :
  is_Some (cache w) → Forall without_click steps →
  reads (session steps w) = reads w ∧ cache (session steps w) = cache w.
Proof.
  intros Hw Hsteps. revert w Hw.
  induction Hsteps as [|s steps Hs _ IH]; intros w [e He]; [done|].
  destruct s as [ui|fs]; simpl in *.
  - destruct (run_hit_quiet ui w e He Hs) as (_ & Hr & Hc).
    destruct (IH (run ui w)) as [-> ->]; [by rewrite Hc, He | done].
  - destruct (IH (set_storage fs w)) as [-> ->]; by rewrite ?He.
Qed.

(** *** Clicks and failures *)

(** A click on a filled cache that holds a games table: the cache is
    emptied and the script starts over. *)
Lemma run_clicked ui w v rep g :
  cache w = Some (v, rep) → v.1.1 = Some g → refresh_clicked ui = true →
  run ui w = run (unclicked ui) (set_cache None w).
Proof.
  intros He Hg Hc.
  rewrite (run_no_rerun (unclicked ui))
    by by apply main_unclicked_no_rerun.
  unfold run at 1.
  destruct (main_cases ui (new_run w)) as (v' & Hv' & ->).
  rewrite (load_data_hit (greeted (new_run w)) v rep) in * by done.
  simpl in Hv'. injection Hv' as <-.
  rewrite render_cases. simpl. rewrite Hg.
  rewrite (bind_raises _ _ _ _ _ (sidebar_clicked ui _ Hc)).
  match goal with
  | |- finish (main _ (new_run ?X)) = _ =>
      change (new_run X)
        with (set_locals (λ _, locals X) (new_run (set_cache None w)))
  end.
  by rewrite main_set_locals.
Qed.

(** When the cached load has no games table, a run neither reads nor
    clears anything, clicked or not, and shows the failure page. *)
Lemma run_after_failure ui w v rep :
  cache w = Some (v, rep) → v.1.1 = None →
  quiet w (run ui w)
  ∧ page (run ui w)
    = banner ++ rep ++ [Error files_not_found; Info required_files].
Proof.
  intros He Hv.
  assert (Hmain : main ui (new_run w)
    = (Returns tt,
       set_page (λ p, p ++ [Error files_not_found; Info required_files])
         (bound v (set_page (λ p, p ++ rep) (greeted (new_run w)))))).
  { destruct (main_cases ui (new_run w)) as (v' & Hv' & ->).
    rewrite (load_data_hit (greeted (new_run w)) v rep) in * by done.
    simpl in Hv'. injection Hv' as <-.
    rewrite render_cases. simpl. rewrite Hv.
    script_unfold. unfold set_page. simpl. by rewrite <- app_assoc. }
  unfold run. rewrite Hmain. simpl. split; [by split_and!|].
  unfold banner. simpl. by rewrite <- ?app_assoc.
Qed.

(** A first load that fails: the failure is what the cache gets. *)
Lemma run_first_failure ui w msg :
  cache w = None → first_failure w = Some msg →
  cache (run ui w) = Some ((None, None, None), [load_error msg])
  ∧ page (run ui w) = failure_page msg
  ∧ reads (run ui w) = reads w ++ paths_read w.
Proof.
  intros Hn Hf.
  unfold run, main, bind_locals, load_data, cache_data, load_data_body,
    try_except, read_parquet, render, paths_read.
  unfold first_failure in Hf. script_unfold. simpl. rewrite Hn.
  destruct (storage w games_path) as [g|c1 m1]; simpl.
  - destruct (storage w reviews_path) as [r|c2 m2]; simpl.
    + destruct (storage w logs_path) as [l|c3 m3]; simpl; [done|].
      injection Hf as ->. by rewrite <- !app_assoc.
    + injection Hf as ->. by rewrite <- !app_assoc.
  - by injection Hf as ->.
Qed.

(** Once a failure is cached, no step of a session touches the cache or
    the files. *)
Lemma session_after_failure steps w msg :
  cache w = Some ((None, None, None), [load_error msg]) →
  cache (session steps w) = cache w ∧ reads (session steps w) = reads w.
Proof.
  revert w. induction steps as [|[ui|fs] steps IH]; intros w Hc; [done| |].
  - simpl.
    destruct (run_after_failure ui w _ _ Hc eq_refl) as [(_ & Hr & Hc') _].
    destruct (IH (run ui w)) as [-> ->]; [by rewrite Hc', Hc|].
    by rewrite Hc', Hr.
  - simpl. by destruct (IH (set_storage fs w)) as [-> ->].
Qed.

Lemma failure_sticks ui steps w msg :
  cache w = Some ((None, None, None), [load_error msg]) →
  page (run ui (session steps w)) = failure_page msg
  ∧ reads (run ui (session steps w)) = reads w.
Proof.
  intros Hc. destruct (session_after_failure steps w msg Hc) as [Hc2 Hr2].
  destruct (run_after_failure ui (session steps w) _ _
              (eq_trans Hc2 Hc) eq_refl) as [(_ & Hr3 & _) Hp3].
  split; [done | by rewrite Hr3, Hr2].
Qed.

End RunFacts.

(* ===================================================================== *)
(** ** Runs that do not see the files *)
(* ===================================================================== *)

Module ViewFacts.

Import NumericFacts PandasFacts ScriptFacts Loader RunFacts.

Lemma blind_ret {A} g (a : A) : blind g (mret a).
Proof. done. Qed.

Lemma blind_lift {A} g (o : outcome A) : blind g (lift o).
Proof. done. Qed.

Lemma blind_bind {A B} g (m : Script A) (k : A → Script B) :
  blind g m → (∀ a, blind g (k a)) → blind g (m ≫= k).
Proof.
  intros Hm Hk w. unfold mbind, script_bind. rewrite Hm.
  destruct (m w) as [[a|e] w']; simpl; [apply Hk | done].
Qed.

Section unseen.

Variable g : World → World.
Hypothesis Hg : unseen g.

Lemma blind_gets_locals {A} (f : Locals → A) : blind g (gets (f ∘ locals)).
Proof. intros w. unfold gets. simpl. by rewrite (unseen_locals g Hg). Qed.

Lemma blind_emit el : blind g (emit el).
Proof.
  intros w. unfold emit, modify. simpl. by rewrite (unseen_page g Hg).
Qed.

Lemma blind_set_locals f : blind g (modify (set_locals f)).
Proof.
  intros w. unfold modify. simpl. by rewrite (unseen_set_locals g Hg).
Qed.

Lemma finish_unseen o w : finish (o, g w) = g (finish (o, w)).
Proof.
  destruct o as [[]|[cls msg|]]; simpl; by rewrite ?(unseen_page g Hg).
Qed.

End unseen.

Ltac blind_step :=
  lazymatch goal with
  | |- blind _ (_ ≫= _) => apply blind_bind; [| intros ?]
  | |- blind _ (mret _) => apply blind_ret
  | |- blind _ (gets _) => apply blind_gets_locals; assumption
  | |- blind _ (lift _) => apply blind_lift
  | |- blind _ (emit _) => apply blind_emit; assumption
  | |- blind _ (modify (set_locals _)) => apply blind_set_locals; assumption
  | |- blind _ (match ?x with _ => _ end) => destruct x
  | |- blind _ (let _ := _ in _) => cbv zeta
  end.

Lemma blind_overview_metrics g : unseen g → blind g overview_metrics.
Proof.
  intros Hg.
  unfold overview_metrics, total_games_metric, total_reviews_metric,
    log_entries_metric, avg_playtime_metric.
  repeat blind_step.
Qed.

Lemma blind_player_analytics g : unseen g → blind g player_analytics.
Proof.
  intros Hg.
  unfold player_analytics, playtime_distribution, active_players_metric,
    sentiment_score_metric.
  repeat blind_step.
Qed.

Lemma blind_render g ui :
  unseen g → refresh_clicked ui = false → blind g (render ui).
Proof.
  intros Hg Hc w. rewrite !render_cases, (unseen_locals g Hg).
  destruct (games_df (locals w)).
  - rewrite (bind_returns _ _ _ _ _ (sidebar_unclicked ui w Hc)).
    rewrite (bind_returns _ _ _ _ _ (sidebar_unclicked ui (g w) Hc)).
    rewrite <- (unseen_page g Hg).
    assert (Hrest : blind g (overview_metrics ≫= λ _, player_analytics)).
    { apply blind_bind; [by apply blind_overview_metrics|].
      intros _. by apply blind_player_analytics. }
    apply Hrest.
  - assert (Hrest : blind g (emit (Error files_not_found) ≫= λ _,
                               emit (Info required_files)))
      by repeat blind_step.
    apply Hrest.
Qed.

Lemma unseen_outside fs rd : unseen (outside fs rd).
Proof. by constructor. Qed.

(** A run on a filled cache in which the button is not clicked: the
    cached tables are bound and rendered. *)
Lemma run_hit ui w v rep :
  cache w = Some (v, rep) → refresh_clicked ui = false →
  run ui w
  = finish (render ui (bound v (set_page (λ p, p ++ rep)
                                  (greeted (new_run w))))).
Proof.
  intros He Hc. rewrite run_no_rerun by by apply main_unclicked_no_rerun.
  destruct (main_cases ui (new_run w)) as (v' & Hv' & ->).
  rewrite (load_data_hit (greeted (new_run w)) v rep) in * by done.
  simpl in Hv'. by injection Hv' as <-.
Qed.

(** Such a run sees of the world it starts from the cache only. *)
Lemma run_hit_outside ui w1 w2 e :
  cache w1 = Some e → cache w2 = Some e → refresh_clicked ui = false →
  run ui w2 = outside (storage w2) (reads w2) (run ui w1).
Proof.
  destruct e as [v rep]. intros H1 H2 Hc.
  rewrite (run_hit ui w1 v rep H1 Hc), (run_hit ui w2 v rep H2 Hc).
  set (B := λ w, bound v (set_page (λ p, p ++ rep) (greeted (new_run w)))).
  change (finish (render ui (B w2))
          = outside (storage w2) (reads w2) (finish (render ui (B w1)))).
  assert (HB : B w2 = outside (storage w2) (reads w2) (B w1)).
  { destruct w1, w2. simpl in *. subst. reflexivity. }
  rewrite HB, (blind_render _ ui (unseen_outside _ _) Hc).
  rewrite (finish_unseen _ (unseen_outside _ _)).
  by destruct (render ui (B w1)).
Qed.

End ViewFacts.

(* ===================================================================== *)
(** ** Exceptions and the growth of the page *)
(* ===================================================================== *)

Module ExceptionFacts.

Import NumericFacts PandasFacts ScriptFacts Loader RunFacts.









Lemma mean_type_error s e : mean s = Raises e → is_type_error e.
Proof. destruct s; simpl; [done|intros [= <-]; by eexists..]. Qed.

Lemma sum_type_error s e : sum s = Raises e → is_type_error e.
Proof. destruct s; simpl; [done|intros [= <-]; by eexists..]. Qed.

Lemma cut_type_error s bins labels e :
  cut s bins labels = Raises e → is_type_error e.
Proof. destruct s; simpl; [done|intros [= <-]; by eexists..]. Qed.

Create HintDb raises discriminated.

#[export] Hint Resolve mean_type_error sum_type_error cut_type_error
  : raises.






(** *** The page only grows *)

Lemma page_greeted w : page (greeted w) = page w ++ banner.
Proof. unfold greeted, banner. simpl. by rewrite <- app_assoc. Qed.

Lemma load_data_page w : ∃ els, page (load_data w).2 = page w ++ els.
Proof.
  destruct (cache w) as [[v rep]|] eqn:Hc.
  - rewrite (load_data_hit w v rep Hc). by exists rep.
  - destruct (load_data_miss w Hc) as (v & _ & _ & -> & _).
    destruct (load_data_body_spec w) as [H _].
    destruct (first_failure w) as [msg|].
    + destruct H as [_ ->]. by eexists.
    + destruct H as (g & r & l & _ & _ & _ & _ & ->). exists [].
      by rewrite app_nil_r.
Qed.

Lemma finish_page r : ∃ els, page (finish r) = page r.2 ++ els.
Proof.
  destruct r as [[[]|[cls msg|]] w]; simpl;
    [exists []; by rewrite app_nil_r | by eexists
    | exists []; by rewrite app_nil_r].
Qed.

Lemma main_page ui w :
  ∃ els, page (finish (main ui w)) = page w ++ banner ++ els.
Proof.
  destruct (main_cases ui w) as (v & _ & ->).
  destruct (finish_page (render ui (bound v (load_data (greeted w)).2)))
    as (e3 & ->).
  destruct (ev_page _ _ (evolves_render ui (bound v (load_data (greeted w)).2)))
    as (e2 & ->).
  destruct (load_data_page (greeted w)) as (e1 & He1).
  simpl. rewrite He1, page_greeted. exists (e1 ++ e2 ++ e3).
  by rewrite <- !app_assoc.
Qed.

End ExceptionFacts.

(* ===================================================================== *)
(** ** The rendering code, element by element *)
(* ===================================================================== *)

Module RenderFacts.

Import NumericFacts PandasFacts ScriptFacts RunFacts.

Lemma emits_bind (m : Script unit) (k : unit → Script unit) w e1 e2 :
  emits m w e1 → emits (k tt) (m w).2 e2 → emits (m ≫= k) w (e1 ++ e2).
Proof.
  intros [Hr Hp]. unfold emits, mbind, script_bind.
  destruct (m w) as [[[]|e] w']; simpl in *; [|done].
  intros [Hr' Hp']. split; [done|]. by rewrite Hp', Hp, app_assoc.
Qed.

Lemma fails_bind (m : Script unit) (k : unit → Script unit) w e1 e2 e :
  emits m w e1 → fails (k tt) (m w).2 e2 e → fails (m ≫= k) w (e1 ++ e2) e.
Proof.
  intros [Hr Hp]. unfold fails, mbind, script_bind.
  destruct (m w) as [[[]|e'] w']; simpl in *; [|done].
  intros [Hr' Hp']. split; [done|]. by rewrite Hp', Hp, app_assoc.
Qed.

Lemma emits_emit el w : emits (emit el) w [el].
Proof. by split. Qed.

Lemma set_page_set_page f g w :
  set_page f (set_page g w) = set_page (λ p, f (g p)) w.
Proof. reflexivity. Qed.

Lemma set_page_ext f g w :
  f (page w) = g (page w) → set_page f w = set_page g w.
Proof. intros H. unfold set_page. by rewrite H. Qed.

(** Up to the three count metrics the rendering code cannot fail. *)
Lemma render_counts ui w g :
  games_df (locals w) = Some g → refresh_clicked ui = false →
  render ui w = (avg_playtime_metric ≫= λ _, player_analytics) (counted ui w).
Proof.
  intros Hg Hc.
  unfold render, sidebar, overview_metrics, total_games_metric,
    total_reviews_metric, log_entries_metric.
  script_unfold. simpl. rewrite Hg, Hc. simpl. rewrite Hg.
  match goal with
  | |- context [avg_playtime_metric ?W] =>
      replace W with (counted ui w); [done|]
  end.
  rewrite !set_page_set_page. apply set_page_ext. rewrite <- !app_assoc.
  unfold row_count. by rewrite Hg.
Qed.

Lemma page_counted ui w g :
  games_df (locals w) = Some g →
  page (counted ui w)
  = page w ++ before_metrics ui
      ++ [Metric "Total Games" (format_comma (len g));
          Metric "Total Reviews"
            (format_comma (row_count (reviews_df (locals w))));
          Metric "Log Entries"
            (format_comma (row_count (logs_df (locals w))))].
Proof. intros Hg. unfold counted. simpl. by rewrite Hg. Qed.

(** The bucket column leaves the other columns as they are. *)
Lemma reviews_step_lookup r r' df' c :
  reviews_step r r' → r' = Some df' → c ≠ "playtime_bin" →
  ∃ df, r = Some df ∧ columns df' !! c = columns df !! c.
Proof.
  intros [->|(df & d' & -> & -> & xs & Hxs & ->)] Hr' Hc.
  - by exists df'.
  - injection Hr' as <-. exists df. split; [done|].
    simpl. by rewrite lookup_insert_ne.
Qed.

Lemma reviews_step_None r r' : reviews_step r r' → r' = None → r = None.
Proof. by intros [->|(df & d' & -> & -> & _)]. Qed.

Lemma playtime_averageable_step r r' :
  reviews_step r r' → playtime_averageable r → playtime_averageable r'.
Proof.
  intros Hstep. destruct r' as [df'|] eqn:E; [|done].
  destruct (reviews_step_lookup r (Some df') df' "playtime_hours" Hstep)
    as (df & -> & Heq); [done..|].
  simpl. by rewrite Heq.
Qed.

Lemma votes_summable_step r r' :
  reviews_step r r' → votes_summable r' ↔ votes_summable r.
Proof.
  intros Hstep. destruct r' as [df'|] eqn:E.
  - destruct (reviews_step_lookup r (Some df') df' "helpful_votes" Hstep)
      as (df & -> & Hh); [done..|].
    destruct (reviews_step_lookup (Some df) (Some df') df' "total_votes" Hstep)
      as (? & [= <-] & Ht); [done..|].
    simpl. by rewrite Hh, Ht.
  - by rewrite (reviews_step_None r None Hstep).
Qed.

Lemma emits_avg_playtime w :
  playtime_averageable (reviews_df (locals w)) →
  ∃ v, emits avg_playtime_metric w [Metric "Avg Playtime" v].
Proof.
  intros Hn. unfold avg_playtime_metric, emits. script_unfold. simpl.
  destruct (reviews_df (locals w)) as [df|]; [|by eexists].
  simpl in Hn. unfold has_column, getitem.
  destruct (columns df !! "playtime_hours") as [[xs| |]|]; try done;
    by eexists.
Qed.

Lemma emits_playtime_distribution w :
  playtime_averageable (reviews_df (locals w)) →
  ∃ el,
    emits playtime_distribution w
      [Markdown "**Player Playtime Distribution**"; el]
    ∧ chart_or_placeholder el.
Proof.
  intros Hn. destruct (reviews_df (locals w)) as [df|] eqn:Hdf.
  - simpl in Hn.
    destruct (columns df !! "playtime_hours") as [[xs| |]|] eqn:H; try done.
    + eexists. unfold emits.
      rewrite (playtime_distribution_numeric w df xs Hdf H).
      split; [done|]. right. by eexists.
    + eexists. unfold emits.
      rewrite playtime_distribution_placeholder.
      * split; [done|]. by left.
      * rewrite Hdf. by apply has_column_None.
  - eexists. unfold emits. rewrite playtime_distribution_placeholder.
    + split; [done|]. by left.
    + by rewrite Hdf.
Qed.

Lemma emits_active_players w :
  ∃ v, emits active_players_metric w [Metric "Active Players" v].
Proof.
  unfold active_players_metric, emits. script_unfold. simpl.
  destruct (logs_df (locals w)) as [df|]; [|by eexists].
  unfold has_column, getitem.
  destruct (columns df !! "player_id"); by eexists.
Qed.

Lemma emits_sentiment_score w :
  votes_summable (reviews_df (locals w)) →
  ∃ v, emits sentiment_score_metric w [Metric "Sentiment Score" v].
Proof.
  intros Hn. unfold sentiment_score_metric, emits. script_unfold. simpl.
  destruct (reviews_df (locals w)) as [df|]; [|by eexists].
  simpl in Hn. unfold has_column, getitem.
  destruct (columns df !! "helpful_votes") as [[hv| |]|],
    (columns df !! "total_votes") as [[tv| |]|]; try done; by eexists.
Qed.

(** Vote columns that are both there and not both numeric make the
    division of the sums raise. *)
Lemma fails_sentiment_score w :
  ¬ votes_summable (reviews_df (locals w)) →
  ∃ msg, fails sentiment_score_metric w [] (TypeError msg).
Proof.
  intros Hn. unfold sentiment_score_metric, fails. script_unfold. simpl.
  destruct (reviews_df (locals w)) as [df|]; [|by destruct Hn].
  simpl in Hn. unfold has_column, getitem.
  destruct (columns df !! "helpful_votes") as [[hv| |]|],
    (columns df !! "total_votes") as [[tv| |]|];
    try (by destruct Hn); eexists; by rewrite app_nil_r.
Qed.

(** A playtime column that is not numeric makes [mean] raise. *)
Lemma fails_avg_playtime w :
  ¬ playtime_averageable (reviews_df (locals w)) →
  ∃ msg, fails avg_playtime_metric w [] (TypeError msg).
Proof.
  intros Hn. unfold avg_playtime_metric, fails. script_unfold. simpl.
  destruct (reviews_df (locals w)) as [df|]; [|by destruct Hn].
  simpl in Hn. unfold has_column, getitem.
  destruct (columns df !! "playtime_hours") as [[xs| |]|];
    try (by destruct Hn); eexists; by rewrite app_nil_r.
Qed.

(** The analytics part up to the active players. *)
Lemma emits_analytics_head w :
  playtime_averageable (reviews_df (locals w)) →
  ∃ chart active w',
    emits (emit (Markdown "### 👥 Player Analytics") ≫= λ _,
           playtime_distribution ≫= λ _, active_players_metric) w
      [Markdown "### 👥 Player Analytics";
       Markdown "**Player Playtime Distribution**"; chart;
       Metric "Active Players" active]
    ∧ chart_or_placeholder chart
    ∧ player_analytics w = sentiment_score_metric w'
    ∧ page w'
      = page w ++ [Markdown "### 👥 Player Analytics";
                   Markdown "**Player Playtime Distribution**"; chart;
                   Metric "Active Players" active]
    ∧ reviews_step (reviews_df (locals w)) (reviews_df (locals w')).
Proof.
  intros Hn.
  set (w1 := (emit (Markdown "### 👥 Player Analytics") w).2).
  destruct (emits_playtime_distribution w1 Hn) as (chart & Hpd & Hchart).
  set (w2 := (playtime_distribution w1).2) in *.
  destruct (emits_active_players w2) as (active & Hact).
  set (w3 := (active_players_metric w2).2) in *.
  exists chart, active, w3.
  assert (Hhead : emits (emit (Markdown "### 👥 Player Analytics") ≫= λ _,
                         playtime_distribution ≫= λ _, active_players_metric)
                    w [Markdown "### 👥 Player Analytics";
                       Markdown "**Player Playtime Distribution**"; chart;
                       Metric "Active Players" active]).
  { apply (emits_bind _ _ w [_] [_; _; _]); [apply emits_emit|].
    apply (emits_bind _ _ w1 [_; _] [_]); done. }
  split_and!; [done|done| | |].
  - unfold player_analytics, mbind, script_bind.
    change (emit (Markdown "### 👥 Player Analytics") w)
      with (Returns tt, w1).
    destruct Hpd as [Hpd _]. destruct Hact as [Hact _].
    destruct (playtime_distribution w1) as [[[]|e] w2'] eqn:E2;
      simpl in *; [|done].
    subst w2. simpl in *.
    destruct (active_players_metric w2') as [[[]|e] w3'] eqn:E3;
      simpl in *; [|done].
    done.
  - destruct Hpd as [_ Hpd]. destruct Hact as [_ Hact].
    subst w3 w2 w1. rewrite Hact, Hpd. simpl. by rewrite <- !app_assoc.
  - assert (Hev : evolves w1 w3).
    { etrans; [apply evolves_playtime_distribution|].
      apply evolves_active_players. }
    apply Hev.
Qed.

Lemma emits_player_analytics w :
  playtime_averageable (reviews_df (locals w)) →
  votes_summable (reviews_df (locals w)) →
  ∃ chart active score,
    emits player_analytics w
      [Markdown "### 👥 Player Analytics";
       Markdown "**Player Playtime Distribution**"; chart;
       Metric "Active Players" active; Metric "Sentiment Score" score]
    ∧ chart_or_placeholder chart.
Proof.
  intros Hp Hv.
  destruct (emits_analytics_head w Hp)
    as (chart & active & w' & _ & Hchart & Hpa & Hpage & Hstep).
  apply (votes_summable_step _ _ Hstep) in Hv.
  destruct (emits_sentiment_score w' Hv) as (score & Hr & Hs).
  exists chart, active, score. split; [|done].
  unfold emits. rewrite Hpa. split; [done|].
  by rewrite Hs, Hpage, <- app_assoc.
Qed.

Lemma fails_player_analytics w :
  playtime_averageable (reviews_df (locals w)) →
  ¬ votes_summable (reviews_df (locals w)) →
  ∃ msg chart active,
    fails player_analytics w
      [Markdown "### 👥 Player Analytics";
       Markdown "**Player Playtime Distribution**"; chart;
       Metric "Active Players" active] (TypeError msg)
    ∧ chart_or_placeholder chart.
Proof.
  intros Hp Hv.
  destruct (emits_analytics_head w Hp)
    as (chart & active & w' & _ & Hchart & Hpa & Hpage & Hstep).
  assert (Hv' : ¬ votes_summable (reviews_df (locals w')))
    by by rewrite (votes_summable_step _ _ Hstep).
  destruct (fails_sentiment_score w' Hv') as (msg & Hr & Hs).
  exists msg, chart, active. split; [|done].
  unfold fails. rewrite Hpa. split; [done|].
  by rewrite Hs, Hpage, app_nil_r.
Qed.

(** The page of a run that ends with an exception. *)
Lemma page_finish_raises r cls msg :
  r.1 = Raises (Exception cls msg) →
  page (finish r) = page r.2 ++ [ExceptionBox cls msg].
Proof. destruct r as [o w]. simpl. by intros ->. Qed.

End RenderFacts.

(* ===================================================================== *)
(** ** Totals of the pie chart *)
(* ===================================================================== *)

Module HistogramFacts.

Import NumericFacts PandasFacts ScriptFacts.

Lemma length_filter_cons {A} (P : A → Prop) `{!∀ x, Decision (P x)}
    (x : A) (l : list A) :
  length (filter P (x :: l))
  = (if decide (P x) then 1 else 0) + length (filter P l).
Proof. rewrite filter_cons. by destruct (decide (P x)). Qed.

(** Every cell lies in one of the four intervals exactly when it is
    above 0. *)
Lemma in_bin_partition x :
  (if decide (in_bin (of_Z 0) (of_Z 10) x = true) then 1 else 0)
  + (if decide (in_bin (of_Z 10) (of_Z 50) x = true) then 1 else 0)
  + (if decide (in_bin (of_Z 50) (of_Z 100) x = true) then 1 else 0)
  + (if decide (in_bin (of_Z 100) PInf x = true) then 1 else 0)
  = if decide (nlt (of_Z 0) x = true) then 1 else 0.
Proof.
  destruct x as [[n d]| | |]; try reflexivity.
  unfold in_bin, of_Z, nlt, nle. rewrite !Qle_bool_inject.
  repeat (case Z.leb_spec; intros; try lia); reflexivity.
Qed.

Lemma rows_within_total xs :
  rows_within (of_Z 0) (of_Z 10) xs + rows_within (of_Z 10) (of_Z 50) xs
  + rows_within (of_Z 50) (of_Z 100) xs + rows_within (of_Z 100) PInf xs
  = rows_positive xs.
Proof.
  unfold rows_within, rows_positive.
  induction xs as [|x xs IH]; [done|].
  rewrite !length_filter_cons. cbv beta.
  pose proof (in_bin_partition x). lia.
Qed.

Lemma rows_positive_unbinned xs :
  rows_positive xs + rows_unbinned xs = length xs.
Proof.
  unfold rows_positive, rows_unbinned.
  induction xs as [|x xs IH]; [done|].
  rewrite !length_filter_cons. cbv beta.
  cbn [length]. repeat case_decide; try lia;
    destruct (nlt (of_Z 0) x); congruence.
Qed.

Lemma sum_list_Permutation (l1 l2 : list nat) :
  l1 ≡ₚ l2 → sum_list l1 = sum_list l2.
Proof. induction 1; simpl; lia. Qed.

#[global] Instance by_count_desc_trans : Transitive by_count_desc.
Proof. intros a b c. unfold by_count_desc. lia. Qed.

#[global] Instance by_count_desc_total : Total by_count_desc.
Proof. intros a b. unfold by_count_desc. lia. Qed.

(** [value_counts] lists the most frequent value first. *)
Lemma value_counts_sorted s :
  StronglySorted (λ a b : nat, (b ≤ a)%nat) ((value_counts s).*2).
Proof.
  apply (StronglySorted_fmap snd by_count_desc); [done|].
  unfold value_counts. apply StronglySorted_merge_sort; apply _.
Qed.

Lemma value_counts_bucket_total xs :
  sum_list ((value_counts (bucket_column xs)).*2) = rows_positive xs.
Proof.
  unfold value_counts, bucket_column.
  rewrite (sum_list_Permutation _ _
    (fmap_Permutation snd _ _ (merge_sort_Permutation _ _))).
  destruct (binned_occurrences xs) as (H1 & H2 & H3 & H4).
  simpl in *. rewrite H1, H2, H3, H4, <- rows_within_total. lia.
Qed.

End HistogramFacts.

(* ===================================================================== *)
(** ** Tables, counts and votes *)
(* ===================================================================== *)

Module TableFacts.

Import NumericFacts PandasFacts ScriptFacts HistogramFacts.

Lemma bucket_column_len xs : series_len (bucket_column xs) = length xs.
Proof. unfold bucket_column. simpl. by rewrite length_fmap. Qed.

Lemma bucketed_well_formed df df' :
  bucketed df df' → well_formed df →
  well_formed df' ∧ index_len df' = index_len df.
Proof.
  intros (xs & Hxs & ->) Hwf. split; [|done].
  apply setitem_well_formed; [done|].
  rewrite bucket_column_len. apply (Hwf _ _ Hxs).
Qed.

Lemma length_uniques {A} (eqb : A → A → bool) l :
  (length (uniques eqb l) ≤ length l)%nat.
Proof.
  induction l as [|x l IH]; simpl; [done|].
  pose proof (length_filter (λ y, eqb x y = false) (uniques eqb l)). lia.
Qed.

Lemma length_dropna xs : (length (dropna xs) ≤ length xs)%nat.
Proof. apply length_filter. Qed.

Lemma length_notnull xs : (length (notnull xs) ≤ length xs)%nat.
Proof.
  unfold notnull. induction xs as [|o xs IH]; [done|].
  change (omap id (o :: xs))
    with (match o with Some x => x :: omap id xs | None => omap id xs end).
  destruct o; simpl; lia.
Qed.

Lemma nunique_le s : (nunique s ≤ series_len s)%nat.
Proof.
  destruct s as [xs|xs|cats xs]; simpl.
  - etrans; [apply length_uniques | apply length_dropna].
  - etrans; [apply length_uniques | apply length_notnull].
  - etrans; [apply length_uniques | apply length_notnull].
Qed.

Lemma dropna_all_missing xs :
  Forall (λ x, isnan x = true) xs → dropna xs = [].
Proof.
  unfold dropna. induction 1 as [|x xs Hx _ IH]; [done|].
  rewrite filter_cons. by rewrite Hx.
Qed.

Lemma rows_positive_all_missing xs :
  Forall (λ x, isnan x = true) xs → rows_positive xs = 0%nat.
Proof.
  unfold rows_positive. induction 1 as [|x xs Hx _ IH]; [done|].
  rewrite filter_cons. by destruct x.
Qed.

Lemma value_counts_bucket_length xs :
  length ((value_counts (bucket_column xs)).*2) = 4%nat.
Proof.
  rewrite length_fmap. unfold value_counts, bucket_column.
  by rewrite merge_sort_Permutation, length_fmap.
Qed.

Lemma sum_list_zero (l : list nat) : sum_list l = 0%nat → Forall (λ n, n = 0%nat) l.
Proof.
  induction l as [|n l IH]; simpl; [done|].
  intros H. constructor; [lia | apply IH; lia].
Qed.

End TableFacts.

(* ===================================================================== *)
(** ** Thousands separators *)
(* ===================================================================== *)

Module FormatFacts.









End FormatFacts.

(* ===================================================================== *)
(** ** Runs and sessions *)
(* ===================================================================== *)

Module Runs.

Import ScriptFacts Loader RunFacts.

(** X1: storage access over a session.  From a process with an empty
    cache and without a click on the refresh button, only the first run
    reads storage: the games, reviews and logs files in that order,
    stopping after the first unreadable one.  Later runs read nothing,
    whatever happens to the files. *)
Theorem files_read_once (ui : Inputs) (steps : list step) (w : World) :
  cache w = None →
  refresh_clicked ui = false →
  Forall without_click steps →
  reads (run ui w) = reads w ++ paths_read w
  ∧ reads (session steps (run ui w)) = reads w ++ paths_read w
  ∧ paths_read w `prefix_of` [games_path; reviews_path; logs_path].
Proof.
  intros Hn Hc Hsteps.
  destruct (run_miss ui w Hn Hc) as (_ & Hr & Hsome).
  split_and!; [done| |].
  - destruct (session_quiet steps (run ui w) Hsome Hsteps) as [-> _]. done.
  - unfold paths_read.
    destruct (storage w games_path); [destruct (storage w reviews_path)|].
    + done.
    + by exists [logs_path].
    + by exists [reviews_path; logs_path].
Qed.

Lemma files_read_once_witness :
  reads (session [FilesChange Samples.empty_disk; Interact Samples.idle]
           (run Samples.idle Samples.fresh))
  = [games_path; reviews_path; logs_path].
Proof.
  destruct (files_read_once Samples.idle
              [FilesChange Samples.empty_disk; Interact Samples.idle]
              Samples.fresh eq_refl eq_refl) as (_ & -> & _).
  - repeat constructor.
  - reflexivity.
Defined.

(** X2: the refresh button.  With tables in the cache, a run in which the
    button was clicked ends as a run on an emptied cache in which it was
    not: the cache is cleared, the script starts over and the files are
    read again. *)
Theorem refresh_reloads (ui : Inputs) (w : World) (v : LoadResult)
    (rep : list Element) (g : DataFrame) :
  cache w = Some (v, rep) →
  v.1.1 = Some g →
  refresh_clicked ui = true →
  run ui w = run (unclicked ui) (set_cache None w)
  ∧ reads (run ui w) = reads w ++ paths_read w.
Proof.
  intros He Hg Hc.
  pose proof (run_clicked ui w v rep g He Hg Hc) as Hrun.
  split; [done|]. rewrite Hrun.
  by destruct (run_miss (unclicked ui) (set_cache None w)) as (_ & -> & _).
Qed.

Lemma refresh_reloads_witness :
  reads (run Cases.click (run Samples.idle Samples.fresh))
  = [games_path; reviews_path; logs_path;
     games_path; reviews_path; logs_path].
Proof.
  destruct (refresh_reloads Cases.click (run Samples.idle Samples.fresh)
              (Some Samples.games, Some Samples.reviews, Some Samples.logs)
              [] Samples.games eq_refl eq_refl eq_refl) as [_ ->].
  reflexivity.
Defined.

(** X3: a failed load sticks.  When the first load fails, the failure is
    what the cache holds, and the refresh button is not on the failure
    page: whatever the user does and whatever happens to the files
    afterwards, every run shows the same failure page and storage is
    never read again. *)
Theorem failed_load_sticks (ui ui' : Inputs) (steps : list step) (w : World)
    (msg : string) :
  cache w = None →
  first_failure w = Some msg →
  page (run ui w) = failure_page msg
  ∧ page (run ui' (session steps (run ui w))) = failure_page msg
  ∧ reads (run ui' (session steps (run ui w))) = reads w ++ paths_read w
  ∧ Button "🔄 Refresh Now" ∉ failure_page msg.
Proof.
  intros Hn Hf.
  destruct (run_first_failure ui w msg Hn Hf) as (Hc & Hp & Hr).
  destruct (failure_sticks ui' steps (run ui w) msg Hc) as [Hp2 Hr2].
  split_and!; [done|done| |].
  - by rewrite Hr2, Hr.
  - unfold failure_page, banner, load_error. simpl.
    rewrite !elem_of_cons, elem_of_nil. intros [|[|[|[|[|]]]]]; done.
Qed.

Lemma failed_load_sticks_witness :
  page (run Samples.idle
          (session [FilesChange Samples.disk; Interact Samples.idle]
             (run Samples.idle Samples.fresh_empty)))
  = failure_page "No such file or directory".
Proof.
  by destruct (failed_load_sticks Samples.idle Samples.idle
                 [FilesChange Samples.disk; Interact Samples.idle]
                 Samples.fresh_empty "No such file or directory"
                 eq_refl eq_refl) as (_ & -> & _).
Defined.

(** X4: a refresh at the wrong moment.  With tables in the cache, a
    click on the refresh button while one of the files cannot be read
    replaces the cached tables by the failure: the run shows the failure
    page, and so does every later run, also after the files have come
    back. *)
Theorem refresh_can_lose_tables (ui ui' : Inputs) (steps : list step)
    (w : World) (v : LoadResult) (rep : list Element) (g : DataFrame)
    (msg : string) :
  cache w = Some (v, rep) →
  v.1.1 = Some g →
  refresh_clicked ui = true →
  first_failure w = Some msg →
  page (run ui w) = failure_page msg
  ∧ page (run ui' (session steps (run ui w))) = failure_page msg.
Proof.
  intros He Hg Hc Hf. rewrite (run_clicked ui w v rep g He Hg Hc).
  destruct (run_first_failure (unclicked ui) (set_cache None w) msg
              eq_refl Hf) as (Hc' & Hp & _).
  split; [done|]. by apply failure_sticks.
Qed.

Lemma refresh_can_lose_tables_witness :
  page (run Samples.idle
          (session [FilesChange Samples.disk]
             (run Cases.click
                (set_storage Samples.empty_disk
                   (run Samples.idle Samples.fresh)))))
  = failure_page "No such file or directory".
Proof.
  by destruct (refresh_can_lose_tables Cases.click Samples.idle
                 [FilesChange Samples.disk]
                 (set_storage Samples.empty_disk
                    (run Samples.idle Samples.fresh))
                 (Some Samples.games, Some Samples.reviews, Some Samples.logs)
                 [] Samples.games "No such file or directory"
                 eq_refl eq_refl eq_refl eq_refl) as [_ ->].
Defined.

(** X5: the auto-refresh checkbox is inert.  Its value is read into a
    variable that nothing uses: two runs that differ only in the state
    of the checkbox end in the same world, page included. *)
Theorem auto_refresh_inert (ui ui' : Inputs) (w : World) :
  same_controls ui ui' → run ui w = run ui' w.
Proof.
  intros [Hc Ht].
  assert (Hside : ∀ w0, sidebar ui w0 = sidebar ui' w0).
  { intros w0. destruct (refresh_clicked ui) eqn:E.
    - by rewrite !sidebar_clicked.
    - rewrite !sidebar_unclicked by done. by rewrite Ht. }
  assert (Hrender : ∀ w0, render ui w0 = render ui' w0).
  { intros w0. rewrite !render_cases. destruct (games_df (locals w0)); [|done].
    unfold mbind at 1 3. unfold script_bind at 1 3. by rewrite Hside. }
  assert (Hmain : ∀ a b w0,
    (∀ w1, render a w1 = render b w1) → main a w0 = main b w0).
  { intros a b w0 H.
    destruct (main_cases a w0) as (v & Hv & ->).
    destruct (main_cases b w0) as (v' & Hv' & ->).
    assert (v' = v) as -> by congruence. apply H. }
  assert (Hside' : ∀ w0, sidebar (unclicked ui) w0 = sidebar (unclicked ui') w0).
  { intros w0. rewrite !sidebar_unclicked by done. simpl. by rewrite Ht. }
  assert (Hrender' : ∀ w0,
    render (unclicked ui) w0 = render (unclicked ui') w0).
  { intros w0. rewrite !render_cases. destruct (games_df (locals w0)); [|done].
    unfold mbind at 1 3. unfold script_bind at 1 3. by rewrite Hside'. }
  unfold run. rewrite (Hmain ui ui' _ Hrender).
  destruct (main ui' (new_run w)) as [[[]|[cls m|]] w1]; try done.
  by rewrite (Hmain (unclicked ui) (unclicked ui') _ Hrender').
Qed.

Lemma auto_refresh_inert_witness :
  run Cases.auto Samples.fresh = run Samples.idle Samples.fresh.
Proof.
  apply auto_refresh_inert. split; reflexivity.
Defined.

(** X6: when a run is abandoned.  [main] asks for a rerun exactly when
    the refresh button was clicked and the loader returned a games table;
    in particular the second pass of [run], where the button reads
    unclicked, never asks again. *)
Theorem rerun_iff_clicked (ui : Inputs) (w : World) :
  (main ui w).1 = Raises RerunException
  ↔ refresh_clicked ui = true
    ∧ ∃ v g, (load_data (greeted w)).1 = Returns v ∧ v.1.1 = Some g.
Proof.
  destruct (main_cases ui w) as (v & Hv & Hmain). split.
  - intros Hr. destruct (refresh_clicked ui) eqn:Hc.
    + split; [done|]. rewrite Hmain, render_cases in Hr. simpl in Hr.
      destruct (v.1.1) as [g|] eqn:Hg; [by exists v, g|]. done.
    + by destruct (main_unclicked_no_rerun ui w Hc).
  - intros (Hc & v' & g & Hv' & Hg).
    assert (v' = v) as -> by congruence.
    rewrite Hmain, render_cases. simpl. rewrite Hg.
    by rewrite (bind_raises _ _ _ _ _ (sidebar_clicked ui _ Hc)).
Qed.

End Runs.

(* ===================================================================== *)
(** ** Cached tables and changed files *)
(* ===================================================================== *)

Module Staleness.

Import ScriptFacts Loader RunFacts ViewFacts.

(** X7: nothing is live until the button is clicked.  Once the cache is
    filled, a run in which the refresh button is not clicked shows what
    the cache holds: after any sequence of earlier runs without a click
    and of changes of the files, the run produces the same page and the
    same tables as it would have produced right away, and the cache
    still holds the same entry. *)
Theorem stale_until_refresh (ui : Inputs) (steps : list step) (w : World)
    (e : LoadResult * list Element) :
  cache w = Some e →
  Forall without_click steps →
  refresh_clicked ui = false →
  page (run ui (session steps w)) = page (run ui w)
  ∧ locals (run ui (session steps w)) = locals (run ui w)
  ∧ cache (run ui (session steps w)) = Some e.
Proof.
  intros He Hsteps Hc.
  destruct (session_quiet steps w) as [_ Hcache]; [by rewrite He|done|].
  rewrite He in Hcache.
  rewrite (run_hit_outside ui w (session steps w) e He Hcache Hc).
  split_and!; [done..|]. simpl.
  by destruct (run_hit_quiet ui w e He Hc) as (_ & _ & ->).
Qed.

Lemma stale_until_refresh_witness :
  page (run Samples.idle
          (session [FilesChange Samples.empty_disk; Interact Samples.idle]
             (run Samples.idle Samples.fresh)))
  = page (run Samples.idle (run Samples.idle Samples.fresh)).
Proof.
  destruct (stale_until_refresh Samples.idle
              [FilesChange Samples.empty_disk; Interact Samples.idle]
              (run Samples.idle Samples.fresh)
              ((Some Samples.games, Some Samples.reviews, Some Samples.logs),
               [])
              eq_refl) as (H & _ & _).
  - repeat constructor.
  - reflexivity.
  - exact H.
Defined.

End Staleness.

(* ===================================================================== *)
(** ** What escapes and what comes first *)
(* ===================================================================== *)

Module Escapes.

Import ScriptFacts Loader RunFacts ExceptionFacts.



(** X9: the banner comes first.  Whatever the inputs, the files and the
    cache, the page a run leaves starts with the header and the
    subtitle; an abandoned first pass leaves nothing in front of
    them. *)
Theorem banner_first (ui : Inputs) (w : World) :
  ∃ rest, page (run ui w) = banner ++ rest.
Proof.
  unfold run.
  destruct (main ui (new_run w)) as [[[]|[cls msg|]] w1] eqn:E.
  - rewrite <- E. apply (main_page ui (new_run w)).
  - rewrite <- E. apply (main_page ui (new_run w)).
  - apply (main_page (unclicked ui) (new_run w1)).
Qed.

End Escapes.

(* ===================================================================== *)
(** ** The page of a pass *)
(* ===================================================================== *)

Module Page.

Import NumericFacts PandasFacts ScriptFacts RunFacts RenderFacts.

(** X10: the shape of a page.  With the games table present, the refresh
    button unclicked, a playtime column that is numeric if it exists and
    vote columns that are numeric if both exist, the rendering code
    completes without an exception and adds, after the sidebar and the
    overview heading, exactly: the three count metrics, the average
    playtime, the two analytics headings, one pie chart or the
    placeholder, the active players and the sentiment score, in this
    order. *)
Theorem page_shape (ui : Inputs) (w : World) (g : DataFrame) :
  games_df (locals w) = Some g →
  refresh_clicked ui = false →
  playtime_averageable (reviews_df (locals w)) →
  votes_summable (reviews_df (locals w)) →
  ∃ avg chart active score,
    (render ui w).1 = Returns tt
    ∧ page (render ui w).2
      = page w ++ before_metrics ui
          ++ [Metric "Total Games" (format_comma (len g));
              Metric "Total Reviews"
                (format_comma (row_count (reviews_df (locals w))));
              Metric "Log Entries"
                (format_comma (row_count (logs_df (locals w))));
              Metric "Avg Playtime" avg;
              Markdown "### 👥 Player Analytics";
              Markdown "**Player Playtime Distribution**";
              chart;
              Metric "Active Players" active;
              Metric "Sentiment Score" score]
    ∧ chart_or_placeholder chart.
Proof.
  intros Hg Hc Hp Hv. rewrite (render_counts ui w g Hg Hc).
  destruct (emits_avg_playtime (counted ui w) Hp) as (avg & Havg).
  set (w4 := (avg_playtime_metric (counted ui w)).2) in *.
  assert (Hstep : reviews_step (reviews_df (locals w))
                    (reviews_df (locals w4)))
    by apply (evolves_avg_playtime (counted ui w)).
  apply (playtime_averageable_step _ _ Hstep) in Hp.
  apply (votes_summable_step _ _ Hstep) in Hv.
  destruct (emits_player_analytics w4 Hp Hv)
    as (chart & active & score & Hpa & Hchart).
  exists avg, chart, active, score.
  destruct (emits_bind avg_playtime_metric (λ _, player_analytics)
              (counted ui w) _ _ Havg Hpa) as [Hr Hpage].
  split_and!; [done| |done].
  rewrite Hpage, (page_counted ui w g Hg). by rewrite <- !app_assoc.
Qed.

Lemma page_shape_witness :
  ∃ avg chart active score,
    page (render Samples.idle Samples.loaded).2
    = before_metrics Samples.idle
        ++ [Metric "Total Games" "1,234";
            Metric "Total Reviews" "4";
            Metric "Log Entries" "4";
            Metric "Avg Playtime" avg;
            Markdown "### 👥 Player Analytics";
            Markdown "**Player Playtime Distribution**";
            chart;
            Metric "Active Players" active;
            Metric "Sentiment Score" score].
Proof.
  destruct (page_shape Samples.idle Samples.loaded Samples.games
              eq_refl eq_refl)
    as (avg & chart & active & score & _ & Hp & _).
  - exact I.
  - exact I.
  - by exists avg, chart, active, score.
Defined.

(** X11: a playtime column that is not numeric.  With the games table
    present and the button unclicked, a categorical playtime column, or
    a text one that holds a string, makes the run stop with a
    [TypeError] at the average playtime: the page has got the three
    count metrics, and gets the exception box instead of everything
    after them. *)
Theorem playtime_not_numeric (ui : Inputs) (w : World) (g df : DataFrame)
    (s : Series) :
  games_df (locals w) = Some g →
  refresh_clicked ui = false →
  reviews_df (locals w) = Some df →
  columns df !! "playtime_hours" = Some s →
  not_reducible s →
  ∃ msg,
    (render ui w).1 = Raises (TypeError msg)
    ∧ page (finish (render ui w))
      = page w ++ before_metrics ui
          ++ [Metric "Total Games" (format_comma (len g));
              Metric "Total Reviews" (format_comma (len df));
              Metric "Log Entries"
                (format_comma (row_count (logs_df (locals w))));
              ExceptionBox "TypeError" msg].
Proof.
  intros Hg Hc Hdf Hs Hred. rewrite (render_counts ui w g Hg Hc).
  assert (Hn : ¬ playtime_averageable (reviews_df (locals (counted ui w)))).
  { simpl. rewrite Hdf. simpl. rewrite Hs. destruct s; simpl in *; tauto. }
  destruct (fails_avg_playtime (counted ui w) Hn) as (msg & Hr & Hp).
  exists msg.
  assert (Hbind : (avg_playtime_metric ≫= λ _, player_analytics)
                    (counted ui w)
                  = avg_playtime_metric (counted ui w)).
  { unfold mbind, script_bind.
    by destruct (avg_playtime_metric (counted ui w)) as [[[]|e] w']. }
  rewrite Hbind. split; [done|].
  rewrite (page_finish_raises _ _ _ Hr), Hp, (page_counted ui w g Hg).
  rewrite Hdf. simpl. by rewrite <- !app_assoc.
Qed.

Lemma playtime_not_numeric_witness :
  ∃ msg,
    (render Samples.idle (Samples.with_reviews (Some Cases.reviews_text))).1
    = Raises (TypeError msg).
Proof.
  destruct (playtime_not_numeric Samples.idle
              (Samples.with_reviews (Some Cases.reviews_text))
              Samples.games Cases.reviews_text
              (Text [Some "12"; Some "n/a"])
              eq_refl eq_refl eq_refl eq_refl) as (msg & H & _).
  - discriminate.
  - by exists msg.
Defined.

(** X12: vote columns that are not numeric.  With the games table
    present, the button unclicked and a usable playtime column, two vote
    columns of which one is categorical, or text with a string in it,
    make the run stop with a [TypeError] at the sentiment score:
    everything before it is on the page, and the exception box takes its
    place. *)
Theorem votes_not_numeric (ui : Inputs) (w : World) (g df : DataFrame)
    (helpful total : Series) :
  games_df (locals w) = Some g →
  refresh_clicked ui = false →
  reviews_df (locals w) = Some df →
  playtime_averageable (Some df) →
  columns df !! "helpful_votes" = Some helpful →
  columns df !! "total_votes" = Some total →
  not_reducible helpful ∨ not_reducible total →
  ∃ msg avg chart active,
    (render ui w).1 = Raises (TypeError msg)
    ∧ page (finish (render ui w))
      = page w ++ before_metrics ui
          ++ [Metric "Total Games" (format_comma (len g));
              Metric "Total Reviews" (format_comma (len df));
              Metric "Log Entries"
                (format_comma (row_count (logs_df (locals w))));
              Metric "Avg Playtime" avg;
              Markdown "### 👥 Player Analytics";
              Markdown "**Player Playtime Distribution**";
              chart;
              Metric "Active Players" active;
              ExceptionBox "TypeError" msg]
    ∧ chart_or_placeholder chart.
Proof.
  intros Hg Hc Hdf Hp Hh Ht Hred. rewrite (render_counts ui w g Hg Hc).
  rewrite <- Hdf in Hp.
  assert (Hv : ¬ votes_summable (reviews_df (locals w))).
  { rewrite Hdf. simpl. rewrite Hh, Ht.
    destruct helpful, total, Hred; simpl in *; tauto. }
  destruct (emits_avg_playtime (counted ui w) Hp) as (avg & Havg).
  set (w4 := (avg_playtime_metric (counted ui w)).2) in *.
  assert (Hstep : reviews_step (reviews_df (locals w))
                    (reviews_df (locals w4)))
    by apply (evolves_avg_playtime (counted ui w)).
  apply (playtime_averageable_step _ _ Hstep) in Hp.
  assert (Hv4 : ¬ votes_summable (reviews_df (locals w4)))
    by by rewrite (votes_summable_step _ _ Hstep).
  destruct (fails_player_analytics w4 Hp Hv4)
    as (msg & chart & active & Hpa & Hchart).
  exists msg, avg, chart, active.
  destruct (fails_bind avg_playtime_metric (λ _, player_analytics)
              (counted ui w) _ _ _ Havg Hpa) as [Hr Hpage].
  split_and!; [done| |done].
  rewrite (page_finish_raises _ _ _ Hr), Hpage, (page_counted ui w g Hg).
  rewrite Hdf. simpl. by rewrite <- !app_assoc.
Qed.

Lemma votes_not_numeric_witness :
  ∃ msg,
    (render Samples.idle (Samples.with_reviews (Some Cases.reviews_words))).1
    = Raises (TypeError msg).
Proof.
  destruct (votes_not_numeric Samples.idle
              (Samples.with_reviews (Some Cases.reviews_words))
              Samples.games Cases.reviews_words
              (Text [Some "three"; None]) (Samples.ints [5; 7]%Z)
              eq_refl eq_refl eq_refl)
    as (msg & avg & chart & active & H & _).
  - exact I.
  - reflexivity.
  - reflexivity.
  - left. discriminate.
  - by exists msg.
Defined.

End Page.

(* ===================================================================== *)
(** ** What the pie chart adds up to *)
(* ===================================================================== *)

Module Chart.

Import NumericFacts PandasFacts ScriptFacts HistogramFacts.

(** X13: what the pie chart leaves out.  The counts of the four slices add
    up to the number of rows whose playtime is above 0: every such row is
    in exactly one slice, and a row with a missing, zero or negative
    playtime is in none, so the percentages of the chart are out of the
    rows with positive playtime, not out of all reviews.  The slices are
    ordered by falling count. *)
Theorem chart_totals (w : World) (df : DataFrame) (xs : list num) :
  reviews_df (locals w) = Some df →
  columns df !! "playtime_hours" = Some (Numeric xs) →
  ∃ fig,
    charts (page (playtime_distribution w).2) = charts (page w) ++ [fig]
    ∧ sum_list (fig_values fig) = rows_positive xs
    ∧ rows_positive xs + rows_unbinned xs = length xs
    ∧ StronglySorted (λ a b : nat, (b ≤ a)%nat) (fig_values fig).
Proof.
  intros Hdf Hxs.
  rewrite (playtime_distribution_numeric w df xs Hdf Hxs).
  eexists. split.
  - unfold charts. simpl. rewrite omap_app. done.
  - simpl. split_and!.
    + apply value_counts_bucket_total.
    + apply rows_positive_unbinned.
    + apply value_counts_sorted.
Qed.

Lemma chart_totals_witness :
  ∃ fig,
    charts (page (playtime_distribution Samples.loaded).2) = [fig]
    ∧ sum_list (fig_values fig) = 4%nat.
Proof.
  destruct (chart_totals Samples.loaded Samples.reviews _ eq_refl eq_refl)
    as (fig & Hc & Hs & _).
  by exists fig.
Defined.

End Chart.

(* ===================================================================== *)
(** ** Edge cases of the tables *)
(* ===================================================================== *)

Module Tables.

Import NumericFacts RoundingFacts PandasFacts ExactFacts GroupFacts
  ScriptFacts HistogramFacts TableFacts.

(** X14: the reviews table stays well formed.  The rendering code
    changes the reviews table only by the assignment of the bucket
    column; the column has one cell per row, so a table in which every
    column has one cell per row is still such a table afterwards, with
    the same number of rows. *)
Theorem reviews_stay_well_formed (ui : Inputs) (w : World) (df : DataFrame) :
  reviews_df (locals w) = Some df →
  well_formed df →
  ∃ df',
    reviews_df (locals (render ui w).2) = Some df'
    ∧ well_formed df'
    ∧ len df' = len df.
Proof.
  intros Hdf Hwf.
  destruct (evolves_render ui w) as [_ _ _ _ _ _ Hstep].
  rewrite Hdf in Hstep.
  destruct Hstep as [->|(d & d' & [= <-] & -> & Hb)]; [by exists df|].
  exists d'. split; [done|]. by apply bucketed_well_formed.
Qed.

Lemma reviews_stay_well_formed_witness :
  ∃ df',
    reviews_df (locals (render Samples.idle Samples.loaded).2) = Some df'
    ∧ well_formed df'
    ∧ len df' = 4%nat.
Proof.
  apply (reviews_stay_well_formed Samples.idle Samples.loaded Samples.reviews
           eq_refl).
  refine (bool_decide_unpack
            (map_Forall (λ _ s, series_len s = 4%nat)
               (columns Samples.reviews)) _).
  by vm_compute.
Defined.

(** X15: a playtime column without a value.  When every cell of a
    numeric playtime column is missing (in particular when the table has
    no rows) the average playtime is shown as "nanh", not as "N/A", and
    the pie chart is drawn with its four slices at count 0. *)
Theorem playtime_all_missing (w : World) (df : DataFrame) (xs : list num) :
  reviews_df (locals w) = Some df →
  columns df !! "playtime_hours" = Some (Numeric xs) →
  Forall (λ x, isnan x = true) xs →
  avg_playtime_metric w = emit (Metric "Avg Playtime" "nanh") w
  ∧ ∃ fig,
      charts (page (playtime_distribution w).2) = charts (page w) ++ [fig]
      ∧ fig_values fig = [0; 0; 0; 0]%nat.
Proof.
  intros Hdf Hxs Hnan. split.
  - unfold avg_playtime_metric. script_unfold. simpl. rewrite Hdf.
    rewrite (has_column_Some _ _ _ Hxs), (getitem_Some _ _ _ Hxs). simpl.
    unfold nanmean. by rewrite (dropna_all_missing xs Hnan).
  - rewrite (playtime_distribution_numeric w df xs Hdf Hxs).
    eexists. split.
    + unfold charts. simpl. by rewrite omap_app.
    + simpl.
      pose proof (value_counts_bucket_total xs) as Hsum.
      rewrite (rows_positive_all_missing xs Hnan) in Hsum.
      pose proof (value_counts_bucket_length xs) as Hlen.
      apply sum_list_zero in Hsum.
      destruct ((value_counts (bucket_column xs)).*2)
        as [|a [|b [|c [|d [|]]]]]; try done.
      by do 4 apply Forall_cons_1 in Hsum as [-> Hsum].
Qed.

Lemma playtime_all_missing_witness :
  avg_playtime_metric (Samples.with_reviews (Some Cases.reviews_blank))
  = emit (Metric "Avg Playtime" "nanh")
      (Samples.with_reviews (Some Cases.reviews_blank)).
Proof.
  apply (playtime_all_missing
           (Samples.with_reviews (Some Cases.reviews_blank))
           Cases.reviews_blank [NaN; NaN] eq_refl eq_refl).
  repeat constructor.
Defined.

(** X16: active players against log entries.  On a well-formed logs
    table with a player column, the number shown as Active Players is at
    most the number shown as Log Entries. *)
Theorem active_players_bounded (w : World) (df : DataFrame) (s : Series) :
  logs_df (locals w) = Some df →
  well_formed df →
  columns df !! "player_id" = Some s →
  ∃ active,
    active_players_metric w
    = emit (Metric "Active Players" (format_comma active)) w
    ∧ log_entries_metric w
      = emit (Metric "Log Entries" (format_comma (len df))) w
    ∧ (active ≤ len df)%nat.
Proof.
  intros Hdf Hwf Hs. exists (nunique s). split_and!.
  - unfold active_players_metric. script_unfold. simpl. rewrite Hdf.
    by rewrite (has_column_Some _ _ _ Hs), (getitem_Some _ _ _ Hs).
  - unfold log_entries_metric. script_unfold. simpl. by rewrite Hdf.
  - unfold len. rewrite <- (Hwf _ _ Hs). apply nunique_le.
Qed.

Lemma active_players_bounded_witness :
  ∃ active,
    active_players_metric Samples.loaded
    = emit (Metric "Active Players" (format_comma active)) Samples.loaded
    ∧ (active ≤ 4)%nat.
Proof.
  destruct (active_players_bounded Samples.loaded Samples.logs
              (Samples.ints [1; 1; 2; 3]%Z) eq_refl)
    as (active & H & _ & Hle).
  - refine (bool_decide_unpack
              (map_Forall (λ _ s, series_len s = 4%nat)
                 (columns Samples.logs)) _).
    by vm_compute.
  - reflexivity.
  - by exists active.
Defined.

(** X17: the sentiment score is a percentage.  When the vote columns
    hold vote counts, in every row the helpful votes are among the total
    votes and some total is not zero, the score the script computes in
    binary64 lies between 0 and 100, and the text shown lies between
    "0.0%" and "100.0%". *)
Theorem sentiment_is_percentage (w : World) (df : DataFrame)
    (hv tv : list num) :
  reviews_df (locals w) = Some df →
  columns df !! "helpful_votes" = Some (Numeric hv) →
  columns df !! "total_votes" = Some (Numeric tv) →
  vote_counts hv → vote_counts tv →
  Forall2 votes_row hv tv →
  ¬ (Qsum (finite_cells tv) == 0)%Q →
  ∃ ratio pct t,
    binary64_of (Qsum (finite_cells hv) / Qsum (finite_cells tv)) ratio
    ∧ binary64_of (ratio * 100) pct
    ∧ (0 <= pct)%Q ∧ (pct <= 100)%Q
    ∧ nearest_even t (pct * 10) ∧ (0 ≤ t ≤ 1000)%Z
    ∧ sentiment_score_metric w
      = emit (Metric "Sentiment Score"
                (pretty (t / 10)%Z +:+ "." +:+ pretty (t `mod` 10)%Z
                 +:+ "%")) w.
Proof.
  intros Hdf Hh Ht Hhv Htv Hrows Hnz.
  destruct (votes_rows_sums hv tv Hrows) as (H0 & Hle).
  set (H := Qsum (finite_cells hv)) in *.
  set (T := Qsum (finite_cells tv)) in *.
  assert (HT : (0 < T)%Q).
  { destruct (Qlt_le_dec 0 T) as [|Hneg]; [done|]. destruct Hnz. lra. }
  assert (Hq0 : (0 <= H / T)%Q) by (apply Qle_shift_div_l; lra).
  assert (Hq1 : (H / T <= inject_Z 1)%Q).
  { apply Qle_shift_div_r; [done|]. change (inject_Z 1) with 1%Q. lra. }
  destruct (sentiment_rounded hv tv Hhv Htv Hnz)
    as (ratio & pct & Hpct & Hr & Hp & Hr0 & Hp0).
  fold H T in Hr.
  pose proof (binary64_le_Z _ _ 1 Hr Hq0 Hq1 eq_refl) as Hr1.
  change (inject_Z 1) with 1%Q in Hr1.
  assert (Hp100 : (pct <= inject_Z 100)%Q).
  { apply (binary64_le_Z (ratio * 100) pct 100 Hp); [lra | | done].
    change (inject_Z 100) with 100%Q. lra. }
  change (inject_Z 100) with 100%Q in Hp100.
  destruct (format_1f_nonneg pct Hp0) as (t & Ht' & Htext).
  exists ratio, pct, t. split_and!; try done.
  - apply (nearest_even_ge t (pct * 10) 0 Ht').
    change (inject_Z 0) with 0%Q. lra.
  - apply (nearest_even_le t (pct * 10) 1000 Ht').
    change (inject_Z 1000) with 1000%Q. lra.
  - rewrite (Metrics.sentiment_score_numeric w df hv tv Hdf Hh Ht).
    by rewrite Hpct, Htext, !string_app_assoc.
Qed.

Lemma sentiment_is_percentage_witness :
  ∃ ratio pct t,
    binary64_of
      (Qsum (finite_cells (of_Z <$> [30; 50; 0; 0]%Z))
       / Qsum (finite_cells (of_Z <$> [30; 50; 10; 10]%Z))) ratio
    ∧ binary64_of (ratio * 100) pct
    ∧ (0 <= pct)%Q ∧ (pct <= 100)%Q
    ∧ nearest_even t (pct * 10) ∧ (0 ≤ t ≤ 1000)%Z
    ∧ sentiment_score_metric Samples.loaded
      = emit (Metric "Sentiment Score"
                (pretty (t / 10)%Z +:+ "." +:+ pretty (t `mod` 10)%Z
                 +:+ "%")) Samples.loaded.
Proof.
  apply (sentiment_is_percentage Samples.loaded Samples.reviews
           (of_Z <$> [30; 50; 0; 0]%Z) (of_Z <$> [30; 50; 10; 10]%Z)
           eq_refl eq_refl eq_refl).
  - exact_column.
  - exact_column.
  - repeat constructor; by vm_compute.
  - by vm_compute.
Defined.

End Tables.

(* ===================================================================== *)
(** ** The displayed counts *)
(* ===================================================================== *)

Module Counts.

Import ScriptFacts FormatFacts GroupFacts.


End Counts.
